(** * Latent profile analysis: the statistical core of [3_latent_profile.py]

    A shallow embedding of the entropy estimator, the likelihood
    decomposer, the model-selection sweep and the finalizer.

    Numbers.  Model parameters and data are real numbers ([R]); values
    computed by numpy are elements of [float]: a real number, [+inf],
    [-inf] or [nan], with the IEEE rules for the three special values
    and exact arithmetic on the finite ones (rounding, overflow and
    signed zeros are outside the model).

    Exceptions.  A Python call that can raise returns a [result]. *)

From Stdlib Require Import Reals Lra Lia List ZArith String Bool.
From stdpp Require Import base list.
Import ListNotations.

Local Open Scope R_scope.

(** ** Python exceptions *)

Inductive exception : Type :=
| ValueError
| IndexError
| LinAlgError.

Inductive result (A : Type) : Type :=
| Ok (a : A)
| Raise (e : exception).

Arguments Ok {A} a.
Arguments Raise {A} e.

#[global] Instance result_ret : MRet result := fun A a => Ok a.

#[global] Instance result_bind : MBind result := fun A B k m =>
  match m with
  | Ok a => k a
  | Raise e => Raise e
  end.

(** ** numpy floating-point values *)

Inductive float : Type :=
| Fin (r : R)
| PInf
| NInf
| NaN.

Definition is_finite (x : float) : bool :=
  match x with Fin _ => true | _ => false end.

(** Sign of a real: the three-way test behind every case split of the
    special-value rules. *)
Inductive sign : Type := Neg | Zero | Pos.

Definition Rsign (r : R) : sign :=
  match total_order_T 0 r with
  | inleft (left _) => Pos
  | inleft (right _) => Zero
  | inright _ => Neg
  end.

Definition fneg (x : float) : float :=
  match x with
  | Fin r => Fin (- r)
  | PInf => NInf
  | NInf => PInf
  | NaN => NaN
  end.

Definition fadd (x y : float) : float :=
  match x, y with
  | NaN, _ | _, NaN => NaN
  | Fin a, Fin b => Fin (a + b)
  | PInf, NInf | NInf, PInf => NaN
  | PInf, _ | _, PInf => PInf
  | NInf, _ | _, NInf => NInf
  end.

Definition fsub (x y : float) : float := fadd x (fneg y).

(** [c * inf] for a finite [c]. *)
Definition scale_inf (c : R) (pos : bool) : float :=
  match Rsign c with
  | Pos => if pos then PInf else NInf
  | Neg => if pos then NInf else PInf
  | Zero => NaN
  end.

Definition fmul (x y : float) : float :=
  match x, y with
  | NaN, _ | _, NaN => NaN
  | Fin a, Fin b => Fin (a * b)
  | Fin a, PInf | PInf, Fin a => scale_inf a true
  | Fin a, NInf | NInf, Fin a => scale_inf a false
  | PInf, PInf | NInf, NInf => PInf
  | PInf, NInf | NInf, PInf => NInf
  end.

(** Division of two finite numbers: [x / 0] is an infinity or [nan]. *)
Definition fdiv_fin (a b : R) : float :=
  match Rsign b with
  | Zero => match Rsign a with Pos => PInf | Neg => NInf | Zero => NaN end
  | _ => Fin (a / b)
  end.

(** [np.log]: [-inf] at zero, [nan] below (numpy warns, it does not raise). *)
Definition np_log (x : float) : float :=
  match x with
  | Fin r => match Rsign r with
             | Pos => Fin (ln r)
             | Zero => NInf
             | Neg => NaN
             end
  | PInf => PInf
  | NInf => NaN
  | NaN => NaN
  end.

(** [np.exp]. *)
Definition np_exp (x : float) : float :=
  match x with
  | Fin r => Fin (exp r)
  | PInf => PInf
  | NInf => Fin 0
  | NaN => NaN
  end.

(** [np.sum] of a one-dimensional array. *)
Definition np_sum (l : list float) : float := fold_right fadd (Fin 0) l.

(** Sum of a list of reals. *)
Definition Rsum (l : list R) : R := fold_right Rplus 0 l.

(** ** Arrays *)

(** A two-dimensional array, as the list of its rows. *)
Abbreviation matrix := (list (list R)) (only parsing).

(** [a.shape[1]] of a two-dimensional array with at least one row. *)
Definition shape1 {A : Type} (a : list (list A)) : nat :=
  match a with
  | [] => O
  | r :: _ => length r
  end.

(** ** [scipy.linalg.det]

    The determinant, here by cofactor expansion along the first row
    (scipy factorises the matrix; the value is the same).  scipy raises
    [ValueError] unless the array is square. *)

Fixpoint cofactor_det (n : nat) (m : matrix) : R :=
  match n, m with
  | S n', r :: rows =>
      Rsum (map (fun j => (-1) ^ j * nth j r 0 * cofactor_det n' (map (delete j) rows))
                (seq 0 (S n')))
  | _, _ => 1
  end.

Definition is_square (m : matrix) : bool :=
  forallb (fun r => Nat.eqb (length r) (length m)) m.

Definition det_value (m : matrix) : R := cofactor_det (length m) m.

Definition det (m : matrix) : result R :=
  if is_square m then Ok (det_value m) else Raise ValueError.

(** ** [scipy.stats.entropy] and [scipy.special.entr] *)

(** [entr(x)] is [-x*log(x)] for [x > 0], [0] at [0] and [-inf] below. *)
Definition entr (x : float) : float :=
  match x with
  | Fin r => match Rsign r with
             | Pos => Fin (- r * ln r)
             | Zero => Fin 0
             | Neg => NInf
             end
  | PInf => NInf
  | NInf => NInf
  | NaN => NaN
  end.

(** [entropy(pk)]: the probabilities are first normalised to sum to one,
    [pk = 1.0*pk / np.sum(pk)], then [S = np.sum(entr(pk))]. *)
Definition entropy (pk : list R) : float :=
  let total := Rsum pk in
  np_sum (map (fun p => entr (fdiv_fin p total)) pk).

(** ** The fitted mixture model

    The attributes of a fitted [sklearn.mixture.GaussianMixture] that the
    program reads, for [covariance_type = "full"] (the value in
    [ModelConfig]): one D x D covariance matrix per component.  sklearn
    keeps [weights_], [means_] and [covariances_] with [n_components]
    entries each, so the model is stored as the list of its components
    and the attributes are projections of it. *)

Record component : Type := {
  weight : R;
  mean : list R;
  cov : matrix
}.

Record GaussianMixture : Type := {
  components : list component
}.

Definition n_components (gmm : GaussianMixture) : nat := length (components gmm).
Definition weights_ (gmm : GaussianMixture) : list R := map weight (components gmm).
Definition means_ (gmm : GaussianMixture) : list (list R) := map mean (components gmm).
Definition covariances_ (gmm : GaussianMixture) : list matrix := map cov (components gmm).

Record ModelConfig : Type := {
  random_state : Z;
  max_iter : Z;
  covariance_type : string
}.

Definition default_ModelConfig : ModelConfig :=
  {| random_state := 459; max_iter := 300; covariance_type := "full" |}.

(** ** Entropy estimator *)

Definition component_entropy_term (n_features : nat) (wc : R * matrix) : result float :=
  d ← det wc.2;
  mret (fmul (Fin wc.1)
             (fadd (np_log (Fin d))
                   (fmul (Fin (INR n_features))
                         (fadd (Fin 1) (np_log (fmul (Fin 2) (Fin PI))))))).

Definition compute_gmm_entropy (gmm_model : GaussianMixture) : result float :=
  let n_features := shape1 (means_ gmm_model) in
  let mixing_entropy := entropy (weights_ gmm_model) in
  terms ← mapM (component_entropy_term n_features)
               (zip (weights_ gmm_model) (covariances_ gmm_model));
  let component_entropies := np_sum terms in
  let total_entropy := fadd mixing_entropy (fmul (Fin 0.5) component_entropies) in
  mret total_entropy.

(** ** External collaborators

    The program treats the mixture fitting and the Gaussian density as
    black boxes.  [log_density x mean cov] is the logarithm of the
    multivariate normal density at [x]; [mvn_check mean cov] is scipy's
    validation of the parameters ([multivariate_normal] raises on a
    covariance that is not positive definite); [gm_fit] is
    [GaussianMixture(...).fit(data)]; [gm_aic] and [gm_bic] are the
    fitted model's [aic] and [bic]. *)

Class Backend : Type := {
  log_density : list R -> list R -> matrix -> R;
  mvn_check : list R -> matrix -> result unit;
  gm_fit : ModelConfig -> nat -> matrix -> result GaussianMixture;
  gm_aic : GaussianMixture -> matrix -> float;
  gm_bic : GaussianMixture -> matrix -> float
}.

(** A [for] loop whose body may raise, threading the loop state. *)
Fixpoint foldM {A S : Type} (body : S -> A -> result S) (s : S) (l : list A)
  : result S :=
  match l with
  | [] => Ok s
  | a :: l' => s' ← body s a; foldM body s' l'
  end.

(** [a[k]] on a numpy array. *)
Definition getitem {A : Type} (a : list A) (k : nat) : result A :=
  match a !! k with
  | Some x => Ok x
  | None => Raise IndexError
  end.

(** [a[:, k] = col]. *)
Definition set_column {A : Type} (k : nat) (col : list A) (a : list (list A))
  : list (list A) :=
  zip_with (fun row v => <[k := v]> row) a col.

(** ** [scipy.special.logsumexp(a, axis=1)]

    The row maximum is subtracted before exponentiating and added back
    after the logarithm; a maximum that is not finite is replaced by 0. *)

Definition fmax (x y : float) : float :=
  match x, y with
  | NaN, _ | _, NaN => NaN
  | PInf, _ | _, PInf => PInf
  | NInf, z | z, NInf => z
  | Fin a, Fin b => Fin (Rmax a b)
  end.

(** [np.amax] over one row; numpy raises on an empty reduction. *)
Definition amax (row : list float) : result float :=
  match row with
  | [] => Raise ValueError
  | x :: r => Ok (fold_left fmax r x)
  end.

Definition logsumexp_row (row : list float) : result float :=
  a_max ← amax row;
  let a_max := if is_finite a_max then a_max else Fin 0 in
  let tmp := map (fun a => np_exp (fsub a a_max)) row in
  let s := np_sum tmp in
  let out := np_log s in
  mret (fadd out a_max).

Definition logsumexp_axis1 (a : list (list float)) : result (list float) :=
  mapM logsumexp_row a.

(** [np.argmax] over one row: the first index of the maximum, a [nan]
    counting as the maximum. *)
Definition flt (x y : float) : bool :=
  match x, y with
  | NaN, _ | _, NaN => false
  | _, NInf => false
  | NInf, _ => true
  | PInf, _ => false
  | _, PInf => true
  | Fin a, Fin b => if Rlt_dec a b then true else false
  end.

Definition beats (x best : float) : bool :=
  match best, x with
  | NaN, _ => false
  | _, NaN => true
  | _, _ => flt best x
  end.

Fixpoint argmax_from (best_i : nat) (best : float) (i : nat) (l : list float) : nat :=
  match l with
  | [] => best_i
  | x :: l' =>
      if beats x best then argmax_from i x (S i) l'
      else argmax_from best_i best (S i) l'
  end.

Definition argmax (row : list float) : result nat :=
  match row with
  | [] => Raise ValueError
  | x :: r => Ok (argmax_from 0 x 1 r)
  end.

(** The index [argmax] returns on a row that is not empty. *)
Definition argmax_index (row : list float) : nat :=
  match row with
  | [] => O
  | x :: r => argmax_from 0 x 1 r
  end.

(** [a.sum(axis=0)] of an array with [ncols] columns. *)
Definition sum_axis0 (ncols : nat) (a : list (list float)) : list float :=
  fold_left (zip_with fadd) a (replicate ncols (Fin 0)).

(** [a * b] on arrays of one shape. *)
Definition multiply (a b : list (list float)) : list (list float) :=
  zip_with (zip_with fmul) a b.

Section Core.
Context `{B : Backend}.

(** ** sklearn: posterior responsibilities and hard assignment

    [BaseMixture.predict_proba] and [BaseMixture.predict]: the weighted
    log probabilities [log N(x | mean_k, cov_k) + log w_k] are normalised
    by their row-wise log-sum-exp and exponentiated; [predict] takes the
    arg-max of the weighted log probabilities.  sklearn evaluates the
    Gaussian log-density from the Cholesky factors of the precision
    matrices; its value is [log_density]. *)

Definition estimate_weighted_log_prob (gmm : GaussianMixture) (X : matrix)
  : list (list float) :=
  map (fun x =>
         map (fun c => fadd (Fin (log_density x (mean c) (cov c)))
                            (np_log (Fin (weight c))))
             (components gmm))
      X.

Definition predict_proba (gmm : GaussianMixture) (X : matrix)
  : result (list (list float)) :=
  let weighted_log_prob := estimate_weighted_log_prob gmm X in
  log_prob_norm ← logsumexp_axis1 weighted_log_prob;
  let log_resp :=
    zip_with (fun row n => map (fun a => fsub a n) row)
             weighted_log_prob log_prob_norm in
  mret (map (map np_exp) log_resp).

Definition predict (gmm : GaussianMixture) (X : matrix) : result (list nat) :=
  mapM argmax (estimate_weighted_log_prob gmm X).

(** ** [scipy.stats.multivariate_normal.logpdf(X, mean, cov)] *)

Definition multivariate_normal_logpdf (X : matrix) (mean : list R) (cov : matrix)
  : result (list R) :=
  mvn_check mean cov;;
  mret (map (fun x => log_density x mean cov) X).

(** ** Likelihood decomposer *)

Definition compute_component_loglikelihoods (gmm : GaussianMixture) (X : matrix)
  : result (list (list float)) :=
  let n_components := n_components gmm in
  let n_samples := length X in
  let log_probs := replicate n_samples (replicate n_components (Fin 0)) in
  foldM (fun log_probs k =>
           mean ← getitem (means_ gmm) k;
           cov ← getitem (covariances_ gmm) k;
           weight ← getitem (weights_ gmm) k;
           lp ← multivariate_normal_logpdf X mean cov;
           mret (set_column k (map (fun v => fadd (np_log (Fin weight)) (Fin v)) lp)
                            log_probs))
        log_probs (seq 0 n_components).

Definition compute_total_loglikelihood (gmm : GaussianMixture) (X : matrix)
  : result (list float) :=
  log_probs ← compute_component_loglikelihoods gmm X;
  logsumexp_axis1 log_probs.

Definition compute_component_contributions (gmm : GaussianMixture) (X : matrix)
  : result (list float * float) :=
  log_probs ← compute_component_loglikelihoods gmm X;
  responsibilities ← predict_proba gmm X;
  row_totals ← logsumexp_axis1 log_probs;
  let total_ll := np_sum row_totals in
  let comp_ll := sum_axis0 (n_components gmm) (multiply responsibilities log_probs) in
  mret (comp_ll, total_ll).

End Core.

(** ** Model selector *)

(** A cell of the comparison table. *)
Inductive value : Type :=
| VFloat (x : float)
| VInt (n : Z).

(** A Python dict of columns, in insertion order. *)
Abbreviation table := (list (string * list value)) (only parsing).

(** The five accumulators of the sweep. *)
Record sweep_state : Type := {
  aic_values : list float;
  bic_values : list float;
  n_components_seen : list nat;
  entropy_values : list float;
  loglikely_hoods : list float
}.

Definition sweep_init : sweep_state :=
  {| aic_values := []; bic_values := []; n_components_seen := [];
     entropy_values := []; loglikely_hoods := [] |}.

(** [range(1, 10)]. *)
Definition n_profiles : list nat := seq 1 9.

Section Pipeline.
Context `{B : Backend}.

(** One iteration of the sweep.  The [print] calls and the unused
    [params = model.get_params()] are left out; [pred_x] is unused too,
    but [predict_proba] is called for it. *)
Definition sweep_step (data : matrix) (model_config : ModelConfig)
  (st : sweep_state) (n : nat) : result sweep_state :=
  model ← gm_fit model_config n data;
  pred_x ← predict_proba model data;
  '(_, total_ll) ← compute_component_contributions model data;
  model_entropy ← compute_gmm_entropy model;
  mret {| aic_values := aic_values st ++ [gm_aic model data];
          bic_values := bic_values st ++ [gm_bic model data];
          n_components_seen := n_components_seen st ++ [n];
          entropy_values := entropy_values st ++ [model_entropy];
          loglikely_hoods := loglikely_hoods st ++ [total_ll] |}.

Definition finetune_model (data : matrix) (model_config : ModelConfig)
  : result table :=
  st ← foldM (sweep_step data model_config) sweep_init n_profiles;
  mret [ ("aic"%string, map VFloat (aic_values st));
         ("bic"%string, map VFloat (bic_values st));
         ("n_components"%string, map (fun n => VInt (Z.of_nat n)) (n_components_seen st));
         ("log-likelihood"%string, map VFloat (loglikely_hoods st));
         ("entropy"%string, map VFloat (entropy_values st)) ].

(** ** Finalizer *)

(** [astype(np.int32)]: wrap into the signed 32-bit range. *)
Definition astype_int32 (z : Z) : Z :=
  ((z + 2 ^ 31) mod 2 ^ 32 - 2 ^ 31)%Z.

(** [lpa_data] is the module-level standardized matrix the function reads. *)
Definition build_model_and_fit (lpa_data : matrix) (n_components : nat)
  (model_config : ModelConfig) : result (list Z * GaussianMixture) :=
  final_model ← gm_fit model_config n_components lpa_data;
  labels ← predict final_model lpa_data;
  mret (map (fun l => astype_int32 (Z.of_nat l)) labels, final_model).

End Pipeline.

(** The rows of [pd.DataFrame(results)]: row [i] pairs every key with
    the [i]-th entry of its column. *)
Definition record_at (results : table) (i : nat) : list (string * option value) :=
  map (fun kc => (kc.1, kc.2 !! i)) results.

Definition records (results : table) : list (list (string * option value)) :=
  map (record_at results) (seq 0 (length (hd [] (map snd results)))).

(** ** Preprocessor: [StandardScaler(with_mean=True, with_std=True)]

    [fit_transform] computes the mean and the population variance of
    every column, replaces a zero scale by 1 and returns
    [(X - mean_) / scale_].  An array with no row or no column is
    rejected with [ValueError]. *)

Definition column (j : nat) (X : matrix) : list R :=
  map (fun row => nth j row 0) X.

Definition np_mean (l : list R) : R := Rsum l / INR (length l).

Definition np_var (l : list R) : R :=
  np_mean (map (fun x => (x - np_mean l) ^ 2) l).

Definition handle_zeros_in_scale (s : R) : R :=
  match Rsign s with
  | Zero => 1
  | _ => s
  end.

Definition fit_transform (X : matrix) : result matrix :=
  let n_features := shape1 X in
  if (Nat.eqb (length X) 0 || Nat.eqb n_features 0)%bool then Raise ValueError
  else
    let mean_ := map (fun j => np_mean (column j X)) (seq 0 n_features) in
    let var_ := map (fun j => np_var (column j X)) (seq 0 n_features) in
    let scale_ := map (fun v => handle_zeros_in_scale (sqrt v)) var_ in
    Ok (map (fun row =>
               zip_with (fun xm s => (xm.1 - xm.2) / s) (zip row mean_) scale_)
            X).

(** ** The specification's formulas *)

(** Shannon entropy (natural logarithm) of a weight distribution. *)
Definition H_categorical (w : list R) : R :=
  - Rsum (map (fun p => p * ln p) w).

(** [H_categorical(w) + 0.5 * sum_k w_k * (ln(det_k) + D*(1 + ln(2 pi)))]. *)
Definition entropy_formula (D : nat) (w dets : list R) : R :=
  H_categorical w
  + 0.5 * Rsum (map (fun wd => wd.1 * (ln wd.2 + INR D * (1 + ln (2 * PI))))
                    (zip w dets)).

(** The logarithm of the plain sum of exponentials. *)
Definition log_sum_of_exp (row : list float) : float :=
  np_log (np_sum (map np_exp row)).


Section SpecDecomposer.
Context `{B : Backend}.

(** Entry [(i, k)] of the per-component matrix: [ln(w_k)] plus the
    log-density of observation [x_i] under component [k]. *)
Definition component_loglikelihood (x : list R) (c : component) : float :=
  fadd (np_log (Fin (weight c))) (Fin (log_density x (mean c) (cov c))).

(** The N x K matrix of those entries. *)
Definition loglikelihood_matrix (gmm : GaussianMixture) (X : matrix)
  : list (list float) :=
  map (fun x => map (component_loglikelihood x) (components gmm)) X.

(** The array [log_probs] once the loop has written its first [j]
    columns: the remaining ones still hold the zeros of [np.zeros]. *)
Definition partial_log_probs (cs : list component) (X : matrix) (j : nat)
  : list (list float) :=
  map (fun x => map (component_loglikelihood x) (take j cs)
                ++ replicate (length cs - j) (Fin 0)) X.

(** The mixture density [sum_k w_k f_k(x)] at an observation, [f_k]
    being the Gaussian density of component [k]. *)
Definition mixture_density (gmm : GaussianMixture) (x : list R) : R :=
  Rsum (map (fun c => weight c * exp (log_density x (mean c) (cov c)))
            (components gmm)).

(** The posterior responsibility of component [c] for observation [x]:
    the exponential of its weighted log-density less the log-sum-exp of
    the weighted log-densities of all components. *)
Definition responsibility (gmm : GaussianMixture) (x : list R) (c : component)
  : float :=
  np_exp (fsub (component_loglikelihood x c)
               (log_sum_of_exp (map (component_loglikelihood x) (components gmm)))).

End SpecDecomposer.

(** A value that is a number or [-inf], and the real number [np.exp]
    maps it to. *)
Definition below_inf (x : float) : bool :=
  match x with Fin _ | NInf => true | _ => false end.

Definition exp_value (x : float) : R :=
  match x with Fin r => exp r | _ => 0 end.


(** ** What a successful fit delivers

    sklearn returns at least one component and positive-definite
    covariance matrices: square, and accepted by scipy's density. *)
Definition fitted `{B : Backend} (gmm : GaussianMixture) : Prop :=
  components gmm <> [] /\
  Forall (fun c => mvn_check (mean c) (cov c) = Ok tt /\ is_square (cov c) = true)
         (components gmm).

(** The value of the entropy estimator on square covariance matrices. *)
Definition entropy_value (gmm : GaussianMixture) : float :=
  fadd (entropy (weights_ gmm))
       (fmul (Fin 0.5)
             (np_sum (map (fun c =>
                             fmul (Fin (weight c))
                                  (fadd (np_log (Fin (det_value (cov c))))
                                        (Fin (INR (shape1 (means_ gmm))
                                              * (1 + ln (2 * PI))))))
                          (components gmm)))).

(** The grand total log-likelihood of a model on a data matrix. *)
Definition total_loglikelihood_value `{B : Backend} (gmm : GaussianMixture) (X : matrix)
  : float :=
  np_sum (map log_sum_of_exp (loglikelihood_matrix gmm X)).

(** The row of the comparison table for candidate [n] and its model. *)
Definition selection_record `{B : Backend} (data : matrix) (gmm : GaussianMixture)
  (n : nat) : list (string * option value) :=
  [ ("aic"%string, Some (VFloat (gm_aic gmm data)));
    ("bic"%string, Some (VFloat (gm_bic gmm data)));
    ("n_components"%string, Some (VInt (Z.of_nat n)));
    ("log-likelihood"%string, Some (VFloat (total_loglikelihood_value gmm data)));
    ("entropy"%string, Some (VFloat (entropy_value gmm))) ].

(** ** A univariate instance of the collaborators

    The density is the univariate normal density; the parameters are
    accepted when the variance is positive; AIC and BIC are sklearn's
    [-2 * score * N + 2 * p] and [-2 * score * N + p * ln N].  The fit
    is a stand-in that places [n] equally weighted unit-variance
    components at 0, 1, ..., n-1, and like sklearn it raises when asked
    for no component or for more components than observations. *)

Definition univariate_log_density (x mean : list R) (cov : matrix) : R :=
  match x, mean, cov with
  | [x0], [m], [[v]] => - (ln (2 * PI) + ln v + (x0 - m) ^ 2 / v) / 2
  | _, _, _ => 0
  end.

Definition univariate_check (mean : list R) (cov : matrix) : result unit :=
  match mean, cov with
  | [_], [[v]] => match Rsign v with
                  | Pos => Ok tt
                  | _ => Raise LinAlgError
                  end
  | _, _ => Raise ValueError
  end.

Definition grid_model (n : nat) : GaussianMixture :=
  {| components :=
       map (fun k => {| weight := 1 / INR n; mean := [INR k]; cov := [[1]] |})
           (seq 0 n) |}.

Definition grid_fit (cfg : ModelConfig) (n : nat) (data : matrix)
  : result GaussianMixture :=
  if (Nat.eqb n 0 || Nat.ltb (length data) n)%bool then Raise ValueError
  else Ok (grid_model n).

Definition univariate_score_total (gmm : GaussianMixture) (X : matrix) : float :=
  np_sum (map (fun x =>
                 log_sum_of_exp
                   (map (fun c => fadd (np_log (Fin (weight c)))
                                       (Fin (univariate_log_density x (mean c) (cov c))))
                        (components gmm)))
              X).

(** The number of free parameters of a full-covariance mixture. *)
Definition n_parameters (gmm : GaussianMixture) : R :=
  let K := INR (n_components gmm) in
  let D := INR (shape1 (means_ gmm)) in
  K * D * (D + 1) / 2 + K * D + K - 1.

Definition univariate_aic (gmm : GaussianMixture) (X : matrix) : float :=
  fadd (fmul (Fin (-2)) (univariate_score_total gmm X)) (Fin (2 * n_parameters gmm)).

Definition univariate_bic (gmm : GaussianMixture) (X : matrix) : float :=
  fadd (fmul (Fin (-2)) (univariate_score_total gmm X))
       (Fin (n_parameters gmm * ln (INR (length X)))).

Definition univariate_backend : Backend :=
  {| log_density := univariate_log_density;
     mvn_check := univariate_check;
     gm_fit := grid_fit;
     gm_aic := univariate_aic;
     gm_bic := univariate_bic |}.

(** Nine observations of one feature, two observations, and a mixture
    one of whose covariances is singular. *)
Definition nine_points : matrix := map (fun k => [INR k]) (seq 0 9).

Definition two_points : matrix := [[0]; [1]].

Definition singular_model : GaussianMixture :=
  {| components :=
       [ {| weight := 1 / 2; mean := [0]; cov := [[0]] |};
         {| weight := 1 / 2; mean := [1]; cov := [[1]] |} ] |}.

(** A raw matrix whose only column is constant. *)
Definition constant_column : matrix := [[1]; [1]].

(** Two identical components and a single observation. *)
Definition twin_model : GaussianMixture :=
  {| components :=
       [ {| weight := 1 / 2; mean := [0]; cov := [[1]] |};
         {| weight := 1 / 2; mean := [0]; cov := [[1]] |} ] |}.

Definition one_point : matrix := [[0]].

From Stdlib Require Import Ascii.

(** ** Auxiliary definitions for the further properties *)

Section LoopBodies.
Context `{B : Backend}.

(** The body of the column loop of [compute_component_loglikelihoods]. *)
Definition loglikelihood_column_step (gmm : GaussianMixture) (X : matrix)
  (log_probs : list (list float)) (k : nat) : result (list (list float)) :=
  mean ← getitem (means_ gmm) k;
  cov ← getitem (covariances_ gmm) k;
  weight ← getitem (weights_ gmm) k;
  lp ← multivariate_normal_logpdf X mean cov;
  mret (set_column k (map (fun v => fadd (np_log (Fin weight)) (Fin v)) lp) log_probs).

End LoopBodies.

Section RealView.
Context `{B : Backend}.

(** The weighted log-density [ln w + ln f(x)] of a component with a
    positive weight, as a real number. *)
Definition weighted_log_density (x : list R) (c : component) : R :=
  ln (weight c) + log_density x (mean c) (cov c).

(** The mixture log-likelihood [ln (sum_k w_k f_k(x))] of an observation. *)
Definition mixture_loglikelihood (gmm : GaussianMixture) (x : list R) : R :=
  ln (Rsum (map (fun c => exp (weighted_log_density x c)) (components gmm))).

(** The posterior probability of a component given an observation. *)
Definition posterior (gmm : GaussianMixture) (x : list R) (c : component) : R :=
  exp (weighted_log_density x c - mixture_loglikelihood gmm x).

End RealView.

(** ** Further instances *)

(** The two-component grid model with its components in the other order. *)
Definition grid_model_swapped : GaussianMixture :=
  {| components := rev (components (grid_model 2)) |}.

(** A model one of whose covariance arrays is not square. *)
Definition ragged_model : GaussianMixture :=
  {| components := [ {| weight := 1; mean := [0; 0]; cov := [[1; 0]; [0]] |} ] |}.

(** A raw matrix with a constant and a varying column, and the same
    matrix in other units. *)
Definition raw_points : matrix := [[1; 0]; [1; 2]].

(** A fit that collapses one component onto a single point, leaving a
    zero variance, when asked for two components or more. *)
Definition collapsing_fit (cfg : ModelConfig) (n : nat) (data : matrix)
  : result GaussianMixture :=
  if Nat.ltb n 2 then grid_fit cfg n data else Ok singular_model.

Definition collapsing_backend : Backend :=
  {| log_density := univariate_log_density;
     mvn_check := univariate_check;
     gm_fit := collapsing_fit;
     gm_aic := univariate_aic;
     gm_bic := univariate_bic |}.

(** ** Files, data frames and the pipeline

    The functions below touch the file system and the module-level data
    frame.  The file system is an interface: [path_exists] is
    [os.path.exists], [mkdir] is [os.mkdir], [write_file] stands for
    [DataFrame.to_csv(path, index=False)] and [joblib.dump]; each may
    raise an [OSError].  A computation of the pipeline is a function
    from the store (the files and the frame [lpa_data]) to the store it
    leaves and its outcome; an exception leaves the store as it was when
    it was raised. *)

Inductive os_error : Type :=
| FileExistsError
| FileNotFoundError
| PermissionError.

Inductive py_exception : Type :=
| Computation (e : exception)
| OSError (e : os_error)
| KeyError (key : string).

Inductive outcome (A : Type) : Type :=
| Done (a : A)
| Failed (e : py_exception).

Arguments Done {A} a.
Arguments Failed {A} e.

(** A data frame: the column labels and the rows. *)
Record DataFrame : Type := {
  frame_columns : list string;
  frame_rows : list (list value)
}.

Inductive artefact : Type :=
| CsvFile (df : DataFrame)
| JoblibFile (model : GaussianMixture).

Class FileSystem : Type := {
  fs : Type;
  path_exists : fs -> string -> bool;
  mkdir : fs -> string -> os_error + fs;
  write_file : fs -> string -> artefact -> os_error + fs
}.

Section Pipeline2.
Context `{B : Backend} `{F : FileSystem}.

Record world : Type := {
  files : fs;
  lpa_data : DataFrame
}.

Definition io (A : Type) : Type := world -> world * outcome A.

#[global] Instance io_ret : MRet io := fun A a w => (w, Done a).

#[global] Instance io_bind : MBind io := fun A C k m w =>
  match m w with
  | (w', Done a) => k a w'
  | (w', Failed e) => (w', Failed e)
  end.

(** A computation without effect on the store. *)
Definition lift {A : Type} (r : result A) : io A := fun w =>
  (w, match r with Ok a => Done a | Raise e => Failed (Computation e) end).

Definition os_path_exists (path : string) : io bool := fun w =>
  (w, Done (path_exists (files w) path)).

Definition os_mkdir (path : string) : io unit := fun w =>
  match mkdir (files w) path with
  | inl e => (w, Failed (OSError e))
  | inr f => ({| files := f; lpa_data := lpa_data w |}, Done tt)
  end.

Definition write (path : string) (a : artefact) : io unit := fun w =>
  match write_file (files w) path a with
  | inl e => (w, Failed (OSError e))
  | inr f => ({| files := f; lpa_data := lpa_data w |}, Done tt)
  end.

Definition get_lpa_data : io DataFrame := fun w => (w, Done (lpa_data w)).

Definition set_lpa_data (df : DataFrame) : io unit := fun w =>
  ({| files := files w; lpa_data := df |}, Done tt).

End Pipeline2.

(** *** [os.path.join] (POSIX) *)

Definition starts_with_sep (p : string) : bool :=
  match p with
  | String c _ => Ascii.eqb c "/"%char
  | EmptyString => false
  end.

Fixpoint ends_with_sep (p : string) : bool :=
  match p with
  | EmptyString => false
  | String c EmptyString => Ascii.eqb c "/"%char
  | String _ p' => ends_with_sep p'
  end.

Definition path_join (a b : string) : string :=
  if starts_with_sep b then b
  else if (String.eqb a "" || ends_with_sep a)%bool then (a ++ b)%string
  else (a ++ "/" ++ b)%string.

(** *** Data frames *)

(** [df.iloc[:, idx]]: the columns at the given positions. *)
Definition iloc_columns (idx : list nat) (df : matrix) : result matrix :=
  mapM (fun row => mapM (getitem row) idx) df.

(** The position of a column label. *)
Fixpoint index_of (key : string) (l : list string) : option nat :=
  match l with
  | [] => None
  | k :: l' => if String.eqb key k then Some O else S <$> index_of key l'
  end.

(** [df[key] = vals]: the column is replaced when the label exists and
    appended otherwise; the number of values must be the number of rows.
    A frame without rows takes its rows from the values, the other
    columns being filled with [nan]. *)
Definition frame_setitem (df : DataFrame) (key : string) (vals : list value)
  : result DataFrame :=
  let rows :=
    match frame_rows df with
    | [] => replicate (length vals) (replicate (length (frame_columns df)) (VFloat NaN))
    | _ => frame_rows df
    end in
  if Nat.eqb (length vals) (length rows) then
    match index_of key (frame_columns df) with
    | Some j =>
        Ok {| frame_columns := frame_columns df;
              frame_rows := zip_with (fun row v => <[j := v]> row) rows vals |}
    | None =>
        Ok {| frame_columns := frame_columns df ++ [key];
              frame_rows := zip_with (fun row v => row ++ [v]) rows vals |}
    end
  else Raise ValueError.

(** [pd.DataFrame(results)] on a dict of columns: the columns must have
    one length. *)
Definition DataFrame_of_dict (results : list (string * list value)) : result DataFrame :=
  let n := length (hd [] (map snd results)) in
  if forallb (fun kc => Nat.eqb (length kc.2) n) results then
    Ok {| frame_columns := map fst results;
          frame_rows := map (fun i => map (fun kc => nth i kc.2 (VFloat NaN)) results)
                            (seq 0 n) |}
  else Raise ValueError.

(** The numeric array sklearn and scipy make of a frame; an entry that
    is not finite is rejected with [ValueError]. *)
Definition cell_value (v : value) : result R :=
  match v with
  | VFloat (Fin x) => Ok x
  | VFloat _ => Raise ValueError
  | VInt n => Ok (IZR n)
  end.

Definition frame_values (df : DataFrame) : result matrix :=
  mapM (mapM cell_value) (frame_rows df).

(** *** Module level: lines 17 to 24

    [raw] is the table [read_csv] returns. *)
Definition module_lpa_data (raw : matrix) : result DataFrame :=
  df ← iloc_columns [20; 22; 24; 26]%nat raw;
  scaled ← fit_transform df;
  mret {| frame_columns := ["ns"; "m"; "d"; "e"]%string;
          frame_rows := map (map (fun x => VFloat (Fin x))) scaled |}.

Definition saved_path : string := "./results".

Section Pipeline3.
Context `{B : Backend} `{F : FileSystem}.

Definition save_finetune_result (results : list (string * list value)) (path : string)
  : io unit :=
  df ← lift (DataFrame_of_dict results);
  let path := path_join path "infoCriterion.csv" in
  write path (CsvFile df).

(** The frame passed as [lpa_data] is the object held in the store: the
    assignment changes it for every holder. *)
Definition save_predict_labels (pred_labels : list Z) (save_path : string) : io unit :=
  lpa_data ← get_lpa_data;
  lpa_data ← lift (frame_setitem lpa_data "cluster" (map VInt pred_labels));
  set_lpa_data lpa_data;;
  write save_path (CsvFile lpa_data).

Definition _name_saved_files (saved_path : string) (model_config : ModelConfig)
  : io (list (string * string)) :=
  let prefix := ("model_" ++ "cov_" ++ covariance_type model_config)%string in
  let save_model_folder := path_join saved_path prefix in
  os_path_exists save_model_folder ≫= fun exists_ : bool =>
  (if exists_ then mret tt else os_mkdir save_model_folder);;
  let saved_re_path := path_join save_model_folder (prefix ++ ".npy") in
  let saved_model_path := path_join save_model_folder (prefix ++ ".joblib") in
  mret [ ("result"%string, saved_re_path); ("model"%string, saved_model_path) ].

(** [d[key]] on a dict. *)
Definition dict_getitem (d : list (string * string)) (key : string) : io string :=
  fun w =>
    (w, match find (fun kv => String.eqb kv.1 key) d with
        | Some kv => Done kv.2
        | None => Failed (KeyError key)
        end).

Definition main : io unit :=
  let model_config := default_ModelConfig in
  frame ← get_lpa_data;
  data ← lift (frame_values frame);
  params_seraching ← lift (finetune_model data model_config);
  save_finetune_result params_seraching saved_path;;
  frame ← get_lpa_data;
  data ← lift (frame_values frame);
  '(pred_labels, model) ← lift (build_model_and_fit data 5 model_config);
  save_path ← _name_saved_files saved_path model_config;
  model_path ← dict_getitem save_path "model";
  write model_path (JoblibFile model);;
  save_predict_labels pred_labels (saved_path ++ "/lpa_k5.csv").

End Pipeline3.

(** The separator [os.path.join] inserts after its first argument. *)
Definition join_sep (a : string) : string :=
  if (String.eqb a "" || ends_with_sep a)%bool then ""%string else "/"%string.

(** The folder and the two file names [_name_saved_files] computes. *)
Definition model_prefix (model_config : ModelConfig) : string :=
  ("model_" ++ "cov_" ++ covariance_type model_config)%string.

Definition model_folder (saved_path : string) (model_config : ModelConfig) : string :=
  path_join saved_path (model_prefix model_config).

(** The frame [lpa_data] with a fresh column of labels. *)
Definition labelled_frame (df : DataFrame) (labels : list Z) : DataFrame :=
  {| frame_columns := frame_columns df ++ ["cluster"%string];
     frame_rows := zip_with (fun row l => row ++ [VInt l]) (frame_rows df) labels |}.

(** An in-memory file system: the paths that exist, each a directory
    or a file with its content; [mkdir] refuses an existing path. *)
Definition memory_fs : FileSystem :=
  {| fs := list (string * option artefact);
     path_exists := fun f p => existsb (fun e => String.eqb e.1 p) f;
     mkdir := fun f p =>
       if existsb (fun e => String.eqb e.1 p) f then inl FileExistsError
       else inr ((p, None) :: f);
     write_file := fun f p a => inr ((p, Some a) :: f) |}.

(** The store of a session on four observations of four features. *)
Definition four_by_four : DataFrame :=
  {| frame_columns := ["ns"; "m"; "d"; "e"]%string;
     frame_rows := map (fun k => map (fun x => VFloat (Fin x)) [INR k; 0; 0; 0])
                       (seq 0 4) |}.

(** A frame of nine observations of one feature, and the stores of two
    sessions that start with no file. *)
Definition nine_by_one : DataFrame :=
  {| frame_columns := ["ns"%string];
     frame_rows := map (map (fun x => VFloat (Fin x))) nine_points |}.

Definition small_session : @world memory_fs :=
  {| files := ([] : @fs memory_fs); lpa_data := four_by_four |}.

Definition nine_session : @world memory_fs :=
  {| files := ([] : @fs memory_fs); lpa_data := nine_by_one |}.

(** * Properties *)

(** ** The sign test *)

Lemma Rsign_pos (r : R) : 0 < r -> Rsign r = Pos.
Proof.
  intros Hr. unfold Rsign.
  destruct (total_order_T 0 r) as [[H | H] | H]; try reflexivity; lra.
Qed.

Lemma Rsign_neg (r : R) : r < 0 -> Rsign r = Neg.
Proof.
  intros Hr. unfold Rsign.
  destruct (total_order_T 0 r) as [[H | H] | H]; try reflexivity; lra.
Qed.

Lemma Rsign_zero : Rsign 0 = Zero.
Proof.
  unfold Rsign.
  destruct (total_order_T 0 0) as [[H | H] | H]; try reflexivity; lra.
Qed.

Lemma Rsign_cases (r : R) :
  (0 < r /\ Rsign r = Pos) \/ (r = 0 /\ Rsign r = Zero) \/ (r < 0 /\ Rsign r = Neg).
Proof.
  unfold Rsign.
  destruct (total_order_T 0 r) as [[H | H] | H]; [left | right; left | right; right];
    split; auto; lra.
Qed.

(** ** Sums *)

Lemma np_sum_Fin (l : list R) : np_sum (map Fin l) = Fin (Rsum l).
Proof.
  induction l as [| a l IH]; [reflexivity |].
  change (fadd (Fin a) (np_sum (map Fin l)) = Fin (a + Rsum l)).
  rewrite IH. reflexivity.
Qed.

Lemma Rsum_map_opp {A : Type} (f : A -> R) (l : list A) :
  Rsum (map (fun a => - f a) l) = - Rsum (map f l).
Proof.
  induction l as [| a l IH]; simpl; [lra | rewrite IH; lra].
Qed.

Lemma zip_map_map {A C E : Type} (f : A -> C) (g : A -> E) (l : list A) :
  zip (map f l) (map g l) = map (fun a => (f a, g a)) l.
Proof.
  induction l as [| a l IH]; cbn; [reflexivity | rewrite <- IH; reflexivity].
Qed.

Lemma lookup_map {A C : Type} (f : A -> C) (l : list A) (i : nat) :
  map f l !! i = f <$> (l !! i).
Proof. exact (list_lookup_fmap f l i). Qed.

(** ** Loops that may raise *)

Lemma mapM_Ok {A C : Type} (f : A -> result C) (g : A -> C) (l : list A) :
  Forall (fun a => f a = Ok (g a)) l -> mapM f l = Ok (map g l).
Proof.
  induction 1 as [| a l Ha _ IH]; simpl; [reflexivity |].
  rewrite Ha. simpl. rewrite IH. reflexivity.
Qed.

Lemma mapM_Ok_inv {A C : Type} (f : A -> result C) (l : list A) (k : list C) :
  mapM f l = Ok k -> Forall2 (fun a c => f a = Ok c) l k.
Proof.
  revert k. induction l as [| a l IH]; simpl; intros k Hk.
  - inversion Hk. constructor.
  - destruct (f a) as [c | e] eqn:Ha; simpl in Hk; [| discriminate].
    destruct (mapM f l) as [cs | e] eqn:Hl; simpl in Hk; [| discriminate].
    inversion Hk; subst. constructor; auto.
Qed.

(** ** Entropy estimator *)

Lemma two_PI_pos : 0 < 2 * PI.
Proof. pose proof PI_RGT_0. lra. Qed.

(** On weights that already sum to one the normalisation of
    [scipy.stats.entropy] changes nothing. *)
Lemma entropy_normalised (w : list R) :
  Rsum w = 1 -> Forall (fun p => 0 <= p) w -> entropy w = Fin (H_categorical w).
Proof.
  intros Hsum Hpos. unfold entropy, H_categorical. rewrite Hsum.
  rewrite <- Rsum_map_opp, <- np_sum_Fin, map_map. f_equal.
  apply map_ext_Forall. eapply Forall_impl; [exact Hpos |].
  intros p Hp. cbn beta in *. unfold fdiv_fin. rewrite (Rsign_pos 1) by lra.
  replace (p / 1) with p by field. unfold entr.
  destruct (Rsign_cases p) as [[H ->] | [[H ->] | [H _]]].
  - f_equal. ring.
  - subst p. f_equal. ring.
  - lra.
Qed.

(** The summand of one component, with the constants folded. *)
Lemma component_entropy_term_value (D : nat) (w : R) (c : matrix) :
  is_square c = true ->
  component_entropy_term D (w, c)
  = Ok (fmul (Fin w)
             (fadd (np_log (Fin (det_value c))) (Fin (INR D * (1 + ln (2 * PI)))))).
Proof.
  intros Hsq. unfold component_entropy_term, det. cbn [fst snd]. rewrite Hsq.
  cbn. rewrite (Rsign_pos _ two_PI_pos). reflexivity.
Qed.

Lemma component_entropy_term_pos (D : nat) (w : R) (c : matrix) :
  is_square c = true -> 0 < det_value c ->
  component_entropy_term D (w, c)
  = Ok (Fin (w * (ln (det_value c) + INR D * (1 + ln (2 * PI))))).
Proof.
  intros Hsq Hdet. rewrite component_entropy_term_value by assumption.
  cbn. rewrite (Rsign_pos _ Hdet). reflexivity.
Qed.

(** C1. For a fitted mixture (non-negative weights summing to one,
    square covariance matrices with positive determinant) over [D]
    dimensions the entropy estimator returns
    [H_categorical(w) + 0.5 * sum_k w_k * (ln(det(cov_k)) + D*(1 + ln(2 pi)))],
    [H_categorical] being the Shannon entropy of the weights. *)
Theorem compute_gmm_entropy_formula (gmm : GaussianMixture) :
  Rsum (weights_ gmm) = 1 ->
  Forall (fun c => 0 <= weight c /\ is_square (cov c) = true /\ 0 < det_value (cov c))
         (components gmm) ->
  compute_gmm_entropy gmm
  = Ok (Fin (entropy_formula (shape1 (means_ gmm)) (weights_ gmm)
                             (map det_value (covariances_ gmm)))).
Proof.
  intros Hsum Hc. unfold compute_gmm_entropy.
  set (D := shape1 (means_ gmm)).
  rewrite (mapM_Ok _ (fun wc => Fin (wc.1 * (ln (det_value wc.2) + INR D * (1 + ln (2 * PI)))))).
  - cbn. rewrite entropy_normalised.
    + rewrite <- map_map, np_sum_Fin. cbn. unfold entropy_formula.
      unfold weights_, covariances_. rewrite map_map, !zip_map_map, !map_map.
      reflexivity.
    + assumption.
    + unfold weights_. apply Forall_map. eapply Forall_impl; [exact Hc |].
      intros c (H & _). exact H.
  - unfold weights_, covariances_. clear Hsum.
    induction Hc as [| c l (Hw & Hsq & Hd) _ IH]; cbn; constructor; auto.
    apply component_entropy_term_pos; assumption.
Qed.

(** *** Special values propagate *)

Lemma fadd_not_finite_l (x y : float) : is_finite x = false -> is_finite (fadd x y) = false.
Proof. destruct x, y; cbn; congruence. Qed.

Lemma fadd_not_finite_r (x y : float) : is_finite y = false -> is_finite (fadd x y) = false.
Proof. destruct x, y; cbn; congruence. Qed.

Lemma scale_inf_not_finite (c : R) (b : bool) : is_finite (scale_inf c b) = false.
Proof. unfold scale_inf. destruct (Rsign c), b; reflexivity. Qed.

Lemma fmul_not_finite_r (x y : float) : is_finite y = false -> is_finite (fmul x y) = false.
Proof.
  destruct x, y; cbn; try congruence; intros _; apply scale_inf_not_finite.
Qed.

Lemma np_sum_not_finite (l : list float) :
  Exists (fun x => is_finite x = false) l -> is_finite (np_sum l) = false.
Proof.
  induction 1 as [x l Hx | x l _ IH].
  - apply fadd_not_finite_l. assumption.
  - apply (fadd_not_finite_r x). assumption.
Qed.

Lemma np_sum_Fin_or_NInf (l : list float) :
  Forall (fun x => x = NInf \/ exists r, x = Fin r) l ->
  np_sum l = NInf \/ exists r, np_sum l = Fin r.
Proof.
  induction 1 as [| x l Hx _ IH]; [right; exists 0; reflexivity |].
  change (np_sum (x :: l)) with (fadd x (np_sum l)).
  destruct Hx as [-> | [r ->]], IH as [-> | [s ->]]; cbn; eauto.
Qed.

Lemma np_sum_NInf (l : list float) :
  Forall (fun x => x = NInf \/ exists r, x = Fin r) l ->
  Exists (fun x => x = NInf) l ->
  np_sum l = NInf.
Proof.
  intros Hall Hex. induction Hex as [x l Hx | x l _ IH];
    inversion Hall as [| ? ? Hx' Hl]; subst;
    change (np_sum (?a :: l)) with (fadd a (np_sum l)).
  - destruct (np_sum_Fin_or_NInf l Hl) as [-> | [r ->]]; reflexivity.
  - rewrite (IH Hl). destruct Hx' as [-> | [r ->]]; reflexivity.
Qed.

(** The mixing entropy of positive weights is a finite number. *)
Lemma Rsum_pos (l : list R) : l <> [] -> Forall (fun p => 0 < p) l -> 0 < Rsum l.
Proof.
  intros Hne Hpos. destruct Hpos as [| p l Hp Hl]; [congruence |]. clear Hne.
  assert (0 <= Rsum l); [| cbn; unfold Rsum in *; lra].
  induction Hl as [| q l Hq _ IH]; unfold Rsum in *; cbn; lra.
Qed.

Lemma entropy_finite (w : list R) :
  Forall (fun p => 0 < p) w -> exists h, entropy w = Fin h.
Proof.
  intros Hpos. destruct w as [| p0 w0]; [exists 0; reflexivity |].
  assert (Htot : 0 < Rsum (p0 :: w0)) by (apply Rsum_pos; [discriminate | assumption]).
  unfold entropy. set (tot := Rsum (p0 :: w0)) in *.
  exists (Rsum (map (fun p => - (p / tot) * ln (p / tot)) (p0 :: w0))).
  rewrite <- np_sum_Fin, map_map. f_equal.
  apply map_ext_Forall. eapply Forall_impl; [exact Hpos |].
  intros p Hp. cbn beta in *. unfold fdiv_fin.
  rewrite (Rsign_pos tot Htot). unfold entr.
  rewrite Rsign_pos; [reflexivity |]. apply Rdiv_lt_0_compat; assumption.
Qed.

(** A singular covariance always shows in the result: whatever the other
    components are, the estimator does not return a finite number. *)
Lemma singular_entropy_not_finite (gmm : GaussianMixture) (r : R) :
  Exists (fun c => det_value (cov c) = 0) (components gmm) ->
  compute_gmm_entropy gmm <> Ok (Fin r).
Proof.
  intros Hex Heq. unfold compute_gmm_entropy in Heq.
  set (D := shape1 (means_ gmm)) in *.
  destruct (mapM _ _) as [terms | e] eqn:Hterms; [| discriminate].
  change (Ok (fadd (entropy (weights_ gmm)) (fmul (Fin 0.5) (np_sum terms)))
          = Ok (Fin r)) in Heq.
  assert (Hfin : fadd (entropy (weights_ gmm)) (fmul (Fin 0.5) (np_sum terms)) = Fin r)
    by congruence.
  clear Heq. apply mapM_Ok_inv in Hterms.
  assert (Hbad : Exists (fun x => is_finite x = false) terms).
  { unfold weights_, covariances_ in Hterms. rewrite zip_map_map in Hterms.
    apply Forall2_fmap_l in Hterms. cbn in Hterms.
    clear Hfin. revert terms Hterms.
    induction Hex as [c l Hc | c l _ IH]; intros terms Hterms;
      inversion Hterms as [| ? t ? ts Ht Hts]; subst.
    - apply Exists_cons_hd. unfold compose in Ht.
      destruct (is_square (cov c)) eqn:Hsq.
      + rewrite component_entropy_term_value in Ht by assumption.
        match type of Ht with Ok ?v = _ => assert (Hv : t = v) by congruence end.
        rewrite Hv, Hc. apply fmul_not_finite_r.
        cbn [np_log]. rewrite Rsign_zero. reflexivity.
      + unfold component_entropy_term, det in Ht. cbn [fst snd] in Ht.
        rewrite Hsq in Ht. discriminate.
    - apply Exists_cons_tl. apply IH. assumption. }
  apply np_sum_not_finite in Hbad.
  apply (fmul_not_finite_r (Fin 0.5)) in Hbad.
  apply (fadd_not_finite_r (entropy (weights_ gmm))) in Hbad.
  rewrite Hfin in Hbad. discriminate.
Qed.

(** C6. If some covariance is singular (determinant 0) the entropy
    estimator never returns a finite number; on a mixture with positive
    weights and square covariance matrices of non-negative determinant
    it then returns [-inf], and it returns a finite number when every
    determinant is positive. *)
Theorem compute_gmm_entropy_singular (gmm : GaussianMixture) :
  (Exists (fun c => det_value (cov c) = 0) (components gmm) ->
   forall r, compute_gmm_entropy gmm <> Ok (Fin r)) /\
  (Forall (fun c => 0 < weight c /\ is_square (cov c) = true /\ 0 <= det_value (cov c))
          (components gmm) ->
   (Exists (fun c => det_value (cov c) = 0) (components gmm) ->
    compute_gmm_entropy gmm = Ok NInf) /\
   (Forall (fun c => 0 < det_value (cov c)) (components gmm) ->
    exists r, compute_gmm_entropy gmm = Ok (Fin r))).
Proof.
  split; [intros Hex r; apply singular_entropy_not_finite; assumption |].
  intros Hc.
  assert (Hw : Forall (fun p => 0 < p) (weights_ gmm)).
  { unfold weights_. apply Forall_map. eapply Forall_impl; [exact Hc |].
    intros c (H & _). exact H. }
  destruct (entropy_finite _ Hw) as [h Hh].
  unfold compute_gmm_entropy. set (D := shape1 (means_ gmm)).
  set (term := fun wc : R * matrix =>
         fmul (Fin wc.1)
              (fadd (np_log (Fin (det_value wc.2))) (Fin (INR D * (1 + ln (2 * PI)))))).
  rewrite (mapM_Ok _ term).
  2:{ unfold weights_, covariances_. rewrite zip_map_map. apply Forall_map.
      eapply Forall_impl; [exact Hc |]. intros c (_ & Hsq & _). cbn beta.
      apply component_entropy_term_value. assumption. }
  cbn. rewrite Hh. unfold weights_, covariances_. rewrite zip_map_map, map_map.
  split.
  - intros Hex. rewrite np_sum_NInf.
    + cbn. unfold scale_inf. rewrite Rsign_pos by lra. reflexivity.
    + apply Forall_map. eapply Forall_impl; [exact Hc |].
      intros c (Hwc & _ & Hd). unfold term. cbn [fst snd np_log].
      destruct (Rsign_cases (det_value (cov c))) as [[H ->] | [[H ->] | [H _]]].
      * right. eexists. reflexivity.
      * left. cbn [fadd fmul]. unfold scale_inf. rewrite Rsign_pos by assumption.
        reflexivity.
      * lra.
    + apply List.Exists_exists in Hex. destruct Hex as (c & Hin & Hd0).
      apply List.Exists_exists. exists (term (weight c, cov c)). split.
      * apply in_map_iff. exists c. split; [reflexivity | assumption].
      * pose proof (proj1 (List.Forall_forall _ _) Hc c Hin) as (Hwc & _).
        unfold term. cbn [fst snd np_log]. rewrite Hd0, Rsign_zero. cbn [fadd fmul].
        unfold scale_inf. rewrite Rsign_pos by assumption. reflexivity.
  - intros Hpos.
    exists (h + 0.5 * Rsum (map (fun c => weight c
                 * (ln (det_value (cov c)) + INR D * (1 + ln (2 * PI)))) (components gmm))).
    replace (map (fun x => term (weight x, cov x)) (components gmm))
      with (map Fin (map (fun x => weight x * (ln (det_value (cov x))
                                             + INR D * (1 + ln (2 * PI)))) (components gmm))).
    + rewrite np_sum_Fin. reflexivity.
    + rewrite map_map. apply map_ext_Forall. eapply Forall_impl; [exact Hpos |].
      intros c Hd. unfold term. cbn [fst snd np_log]. rewrite Rsign_pos by assumption.
      reflexivity.
Qed.

(** ** Likelihood decomposer *)

Section Decomposer.
Context `{B : Backend}.

Lemma getitem_map {A C : Type} (f : A -> C) (l : list A) (k : nat) (a : A) :
  l !! k = Some a -> getitem (map f l) k = Ok (f a).
Proof.
  intros Hk. unfold getitem. rewrite lookup_map, Hk. reflexivity.
Qed.

Lemma set_column_partial (cs : list component) (X : matrix) (j : nat) (c : component) :
  cs !! j = Some c ->
  set_column j (map (fun v => fadd (np_log (Fin (weight c))) (Fin v))
                    (map (fun x => log_density x (mean c) (cov c)) X))
             (partial_log_probs cs X j)
  = partial_log_probs cs X (S j).
Proof.
  intros Hj. unfold set_column, partial_log_probs. rewrite map_map.
  induction X as [| x X IH]; [reflexivity |].
  cbn [map zip_with]. rewrite IH. f_equal.
  pose proof (lookup_lt_Some _ _ _ Hj) as Hlt.
  rewrite insert_app_r_alt by (rewrite length_map, length_take; lia).
  rewrite length_map, length_take, Nat.min_l by lia.
  rewrite Nat.sub_diag, (take_S_r _ _ _ Hj).
  destruct (length cs - j)%nat as [| m] eqn:Hm; [lia |].
  replace (length cs - S j)%nat with m by lia.
  change (map (component_loglikelihood x) (take j cs ++ [c])) with (component_loglikelihood x <$> (take j cs ++ [c])).
  rewrite fmap_app, <- app_assoc. reflexivity.
Qed.

Lemma partial_log_probs_full (gmm : GaussianMixture) (X : matrix) :
  partial_log_probs (components gmm) X (n_components gmm) = loglikelihood_matrix gmm X.
Proof.
  unfold partial_log_probs, loglikelihood_matrix, n_components.
  apply map_ext. intros x. rewrite Nat.sub_diag, firstn_all. apply app_nil_r.
Qed.

(** The column loop, started after [j] columns, runs to the end when
    scipy accepts the parameters of every component. *)
Lemma column_loop (gmm : GaussianMixture) (X : matrix) (n j : nat) :
  Forall (fun c => mvn_check (mean c) (cov c) = Ok tt) (components gmm) ->
  (j + n = n_components gmm)%nat ->
  foldM (fun log_probs k =>
           mean ← getitem (means_ gmm) k;
           cov ← getitem (covariances_ gmm) k;
           weight ← getitem (weights_ gmm) k;
           lp ← multivariate_normal_logpdf X mean cov;
           mret (set_column k (map (fun v => fadd (np_log (Fin weight)) (Fin v)) lp)
                            log_probs))
        (partial_log_probs (components gmm) X j) (seq j n)
  = Ok (loglikelihood_matrix gmm X).
Proof.
  intros Hok. revert j. induction n as [| n IH]; intros j Hj.
  - cbn. rewrite Nat.add_0_r in Hj. subst j. f_equal. apply partial_log_probs_full.
  - cbn [seq foldM]. unfold n_components in Hj.
    destruct (lookup_lt_is_Some_2 (components gmm) j) as [c Hc]; [lia |].
    unfold means_, covariances_, weights_.
    rewrite !(getitem_map _ _ _ _ Hc). cbn [mbind result_bind].
    unfold multivariate_normal_logpdf.
    rewrite (proj1 (List.Forall_forall _ _) Hok c)
      by (apply list_elem_of_In; eapply list_elem_of_lookup_2; eassumption).
    cbn [mbind result_bind mret result_ret].
    rewrite (set_column_partial _ _ _ _ Hc).
    apply IH. unfold n_components. lia.
Qed.

Lemma compute_component_loglikelihoods_Ok (gmm : GaussianMixture) (X : matrix) :
  Forall (fun c => mvn_check (mean c) (cov c) = Ok tt) (components gmm) ->
  compute_component_loglikelihoods gmm X = Ok (loglikelihood_matrix gmm X).
Proof.
  intros Hok. unfold compute_component_loglikelihoods.
  replace (replicate (length X) (replicate (n_components gmm) (Fin 0)))
    with (partial_log_probs (components gmm) X 0).
  - apply column_loop; [assumption | lia].
  - unfold partial_log_probs, n_components. cbn [take app].
    rewrite Nat.sub_0_r. clear. induction X as [| x X IH]; cbn; [reflexivity |].
    rewrite IH. reflexivity.
Qed.

(** C2. When scipy accepts the parameters of every component, the
    per-component log-likelihood operation returns an N x K matrix whose
    entry [(i, k)] is [ln(w_k)] plus the Gaussian log-density of
    observation [i] under the mean and covariance of component [k]. *)
Theorem compute_component_loglikelihoods_entries (gmm : GaussianMixture) (X : matrix) :
  Forall (fun c => mvn_check (mean c) (cov c) = Ok tt) (components gmm) ->
  exists log_probs,
    compute_component_loglikelihoods gmm X = Ok log_probs /\
    length log_probs = length X /\
    Forall (fun row => length row = n_components gmm) log_probs /\
    forall i k x c,
      X !! i = Some x -> components gmm !! k = Some c ->
      log_probs !! i ≫= (fun row => row !! k)
      = Some (fadd (np_log (Fin (weight c)))
                   (Fin (log_density x (mean c) (cov c)))).
Proof.
  intros Hok. exists (loglikelihood_matrix gmm X). repeat split.
  - apply compute_component_loglikelihoods_Ok. assumption.
  - unfold loglikelihood_matrix. apply length_map.
  - unfold loglikelihood_matrix. apply Forall_map, Forall_forall. intros x _.
    cbn. apply length_map.
  - intros i k x c Hi Hk. unfold loglikelihood_matrix.
    rewrite lookup_map, Hi. cbn. rewrite lookup_map, Hk. reflexivity.
Qed.

End Decomposer.

(** ** Log-sum-exp *)

Lemma fadd_0_r (x : float) : fadd x (Fin 0) = x.
Proof. destruct x; cbn; try reflexivity. f_equal. ring. Qed.

Lemma fsub_0_r (x : float) : fsub x (Fin 0) = x.
Proof. destruct x; cbn; try reflexivity. f_equal. ring. Qed.

Lemma fmax_below_inf (x y : float) :
  below_inf (fmax x y) = true -> below_inf x = true /\ below_inf y = true.
Proof. destruct x, y; cbn; intros H; split; congruence. Qed.

Lemma fmax_finite (x y : float) :
  is_finite (fmax x y) = true -> is_finite x = true \/ is_finite y = true.
Proof. destruct x, y; cbn; auto. Qed.

(** A finite row maximum: every entry is a number or [-inf], and one
    entry at least is a number. *)
Lemma amax_finite (r : list float) (x : float) :
  is_finite (fold_left fmax r x) = true ->
  Forall (fun a => below_inf a = true) (x :: r)
  /\ Exists (fun a => is_finite a = true) (x :: r).
Proof.
  revert x. induction r as [| y r IH]; intros x Hx; cbn in Hx.
  - split; [constructor; [destruct x; cbn in *; congruence | constructor] |].
    apply Exists_cons_hd. assumption.
  - destruct (IH _ Hx) as [Hall Hex].
    inversion Hall as [| ? ? Hxy Hr]; subst.
    destruct (fmax_below_inf _ _ Hxy) as [Hbx Hby]. split.
    + repeat constructor; assumption.
    + inversion Hex as [? ? Hf | ? ? Hf]; subst.
      * destruct (fmax_finite _ _ Hf); [apply Exists_cons_hd; assumption |].
        apply Exists_cons_tl, Exists_cons_hd. assumption.
      * do 2 apply Exists_cons_tl. assumption.
Qed.

Lemma np_exp_below_inf (a : float) : below_inf a = true -> np_exp a = Fin (exp_value a).
Proof. destruct a; cbn; congruence. Qed.

Lemma np_exp_shift (a : float) (m : R) :
  below_inf a = true -> np_exp (fsub a (Fin m)) = Fin (exp_value a * exp (- m)).
Proof.
  destruct a; cbn; try congruence; intros _; f_equal.
  - apply exp_plus.
  - ring.
Qed.

Lemma exp_value_sum_pos (row : list float) :
  Forall (fun a => below_inf a = true) row ->
  Exists (fun a => is_finite a = true) row ->
  0 < Rsum (map exp_value row).
Proof.
  intros Hall Hex.
  assert (Hnn : forall l, 0 <= Rsum (map exp_value l)).
  { induction l as [| a l IH]; unfold Rsum in *; cbn; [lra |].
    assert (0 <= exp_value a); [| lra].
    destruct a; cbn; try lra. left. apply exp_pos. }
  induction Hex as [a l Ha | a l _ IH].
  - destruct a; try discriminate. pose proof (Hnn l). pose proof (exp_pos r).
    unfold Rsum in *. cbn. lra.
  - inversion Hall as [| ? ? Hb Hl]; subst. specialize (IH Hl).
    assert (0 <= exp_value a) by (destruct a; cbn; try lra; left; apply exp_pos).
    unfold Rsum in *. cbn. lra.
Qed.

Lemma Rsum_scale (c : R) (f : float -> R) (l : list float) :
  Rsum (map (fun a => f a * c) l) = Rsum (map f l) * c.
Proof.
  induction l as [| a l IH]; unfold Rsum in *; cbn; [ring | rewrite IH; ring].
Qed.

(** Subtracting the row maximum before exponentiating and adding it
    back after the logarithm changes nothing: [logsumexp] is the
    logarithm of the plain sum of exponentials. *)
Lemma logsumexp_row_exact (row : list float) :
  row <> [] -> logsumexp_row row = Ok (log_sum_of_exp row).
Proof.
  intros Hne. destruct row as [| x r]; [congruence |]. clear Hne.
  unfold logsumexp_row, amax, log_sum_of_exp. cbn [mbind result_bind mret result_ret].
  destruct (is_finite (fold_left fmax r x)) eqn:Hfin.
  - destruct (amax_finite _ _ Hfin) as [Hall Hex].
    destruct (fold_left fmax r x) as [m | | |]; try discriminate.
    pose proof (exp_value_sum_pos _ Hall Hex) as Hpos.
    replace (map (fun a => np_exp (fsub a (Fin m))) (x :: r))
      with (map Fin (map (fun a => exp_value a * exp (- m)) (x :: r))).
    2:{ rewrite map_map. apply map_ext_Forall. eapply Forall_impl; [exact Hall |].
        intros a Ha. cbn beta. symmetry. apply np_exp_shift. assumption. }
    replace (map np_exp (x :: r)) with (map Fin (map exp_value (x :: r))).
    2:{ rewrite map_map. apply map_ext_Forall. eapply Forall_impl; [exact Hall |].
        intros a Ha. cbn beta. symmetry. apply np_exp_below_inf. assumption. }
    rewrite !np_sum_Fin, Rsum_scale. set (S := Rsum (map exp_value (x :: r))) in *.
    pose proof (exp_pos (- m)) as Hm.
    cbn [np_log]. rewrite !Rsign_pos by (try apply Rmult_lt_0_compat; assumption).
    cbn [fadd]. do 2 f_equal.
    rewrite ln_mult by assumption. rewrite ln_exp. ring.
  - rewrite fadd_0_r. do 3 f_equal.
    apply map_ext. intros a. rewrite fsub_0_r. reflexivity.
Qed.

Lemma logsumexp_axis1_exact (a : list (list float)) :
  Forall (fun row => row <> []) a ->
  logsumexp_axis1 a = Ok (map log_sum_of_exp a).
Proof.
  intros Hne. unfold logsumexp_axis1. apply mapM_Ok.
  eapply Forall_impl; [exact Hne |]. intros row. apply logsumexp_row_exact.
Qed.

Section TotalLoglikelihood.
Context `{B : Backend}.

Lemma loglikelihood_matrix_rows_nonempty (gmm : GaussianMixture) (X : matrix) :
  components gmm <> [] ->
  Forall (fun row => row <> []) (loglikelihood_matrix gmm X).
Proof.
  intros Hne. unfold loglikelihood_matrix. apply Forall_map, Forall_forall.
  intros x _. cbn. destruct (components gmm); [congruence | discriminate].
Qed.

(** The exponential of one entry is the weighted density [w_k f_k(x)]. *)
Lemma np_exp_component_loglikelihood (x : list R) (c : component) :
  0 <= weight c ->
  np_exp (component_loglikelihood x c)
  = Fin (weight c * exp (log_density x (mean c) (cov c))).
Proof.
  intros Hw. unfold component_loglikelihood. cbn [np_log].
  destruct (Rsign_cases (weight c)) as [[H ->] | [[H ->] | [H _]]].
  - cbn. rewrite exp_plus, exp_ln by assumption. reflexivity.
  - cbn. rewrite H. f_equal. ring.
  - lra.
Qed.

Lemma log_sum_of_exp_mixture (gmm : GaussianMixture) (x : list R) :
  Forall (fun c => 0 <= weight c) (components gmm) ->
  log_sum_of_exp (map (component_loglikelihood x) (components gmm))
  = np_log (Fin (mixture_density gmm x)).
Proof.
  intros Hw. unfold log_sum_of_exp, mixture_density.
  rewrite <- np_sum_Fin, !map_map. do 2 f_equal.
  apply map_ext_Forall. eapply Forall_impl; [exact Hw |].
  intros c Hc. apply np_exp_component_loglikelihood. assumption.
Qed.

(** C3. The total log-likelihood per observation is the row-wise
    log-sum-exp of the per-component matrix; for each row it equals the
    logarithm of the sum of the exponentials of the row's entries, which
    for non-negative weights is [ln (sum_k w_k f_k(x_i))]: the exact
    mixture log-likelihood. *)
Theorem compute_total_loglikelihood_exact (gmm : GaussianMixture) (X : matrix) :
  components gmm <> [] ->
  Forall (fun c => mvn_check (mean c) (cov c) = Ok tt) (components gmm) ->
  exists log_probs,
    compute_component_loglikelihoods gmm X = Ok log_probs /\
    compute_total_loglikelihood gmm X = logsumexp_axis1 log_probs /\
    logsumexp_axis1 log_probs = Ok (map log_sum_of_exp log_probs) /\
    (Forall (fun c => 0 <= weight c) (components gmm) ->
     map log_sum_of_exp log_probs
     = map (fun x => np_log (Fin (mixture_density gmm x))) X).
Proof.
  intros Hne Hok. exists (loglikelihood_matrix gmm X).
  pose proof (compute_component_loglikelihoods_Ok gmm X Hok) as Hlp.
  repeat split.
  - assumption.
  - unfold compute_total_loglikelihood. rewrite Hlp. reflexivity.
  - apply logsumexp_axis1_exact, loglikelihood_matrix_rows_nonempty. assumption.
  - intros Hw. unfold loglikelihood_matrix. rewrite map_map.
    apply map_ext. intros x. apply log_sum_of_exp_mixture. assumption.
Qed.

End TotalLoglikelihood.

(** ** Contributions *)

Lemma fadd_comm (x y : float) : fadd x y = fadd y x.
Proof. destruct x, y; cbn; try reflexivity. f_equal. ring. Qed.

Lemma fadd_assoc (x y z : float) : fadd (fadd x y) z = fadd x (fadd y z).
Proof. destruct x, y, z; cbn; try reflexivity. f_equal. ring. Qed.

Lemma fadd_0_l (x : float) : fadd (Fin 0) x = x.
Proof. rewrite fadd_comm. apply fadd_0_r. Qed.

Lemma zip_with_map_map {A C E F : Type} (h : C -> E -> F) (f : A -> C) (g : A -> E)
  (l : list A) :
  zip_with h (map f l) (map g l) = map (fun a => h (f a) (g a)) l.
Proof.
  induction l as [| a l IH]; cbn; [reflexivity | rewrite IH; reflexivity].
Qed.

(** Column sums of a matrix given by its entries. *)
Lemma sum_axis0_entries {A C : Type} (g : A -> C -> float) (X : list A) (cs : list C) :
  sum_axis0 (length cs) (map (fun x => map (g x) cs) X)
  = map (fun c => np_sum (map (fun x => g x c) X)) cs.
Proof.
  unfold sum_axis0.
  assert (Hgen : forall h : C -> float,
             fold_left (zip_with fadd) (map (fun x => map (g x) cs) X) (map h cs)
             = map (fun c => fadd (h c) (np_sum (map (fun x => g x c) X))) cs).
  { induction X as [| x X IH]; intros h; cbn [map fold_left].
    - apply map_ext. intros c. symmetry. apply fadd_0_r.
    - rewrite zip_with_map_map, IH. apply map_ext. intros c.
      change (np_sum (g x c :: map (fun x0 => g x0 c) X))
        with (fadd (g x c) (np_sum (map (fun x0 => g x0 c) X))).
      apply fadd_assoc. }
  replace (replicate (length cs) (Fin 0)) with (map (fun _ : C => Fin 0) cs).
  - rewrite Hgen. apply map_ext. intros c. apply fadd_0_l.
  - clear. induction cs as [| c cs IH]; cbn; [reflexivity | rewrite IH; reflexivity].
Qed.

Section Contributions.
Context `{B : Backend}.

(** sklearn's weighted log probabilities are the entries of the
    per-component matrix. *)
Lemma estimate_weighted_log_prob_matrix (gmm : GaussianMixture) (X : matrix) :
  estimate_weighted_log_prob gmm X = loglikelihood_matrix gmm X.
Proof.
  unfold estimate_weighted_log_prob, loglikelihood_matrix.
  apply map_ext. intros x. apply map_ext. intros c. apply fadd_comm.
Qed.

Lemma predict_proba_Ok (gmm : GaussianMixture) (X : matrix) :
  components gmm <> [] ->
  predict_proba gmm X = Ok (map (fun x => map (responsibility gmm x) (components gmm)) X).
Proof.
  intros Hne. unfold predict_proba. rewrite estimate_weighted_log_prob_matrix.
  rewrite logsumexp_axis1_exact by (apply loglikelihood_matrix_rows_nonempty; assumption).
  cbn [mbind result_bind mret result_ret]. f_equal.
  unfold loglikelihood_matrix. rewrite map_map, zip_with_map_map, map_map.
  apply map_ext. intros x. rewrite !map_map. reflexivity.
Qed.

(** The contribution operation in closed form. *)
Lemma compute_component_contributions_Ok (gmm : GaussianMixture) (X : matrix) :
  components gmm <> [] ->
  Forall (fun c => mvn_check (mean c) (cov c) = Ok tt) (components gmm) ->
  compute_component_contributions gmm X
  = Ok (map (fun c =>
               np_sum (map (fun x => fmul (responsibility gmm x c)
                                          (component_loglikelihood x c)) X))
            (components gmm),
        np_sum (map log_sum_of_exp (loglikelihood_matrix gmm X))).
Proof.
  intros Hne Hok.
  unfold compute_component_contributions.
  rewrite (compute_component_loglikelihoods_Ok gmm X Hok), (predict_proba_Ok gmm X Hne).
  cbn [mbind result_bind].
  rewrite (logsumexp_axis1_exact _ (loglikelihood_matrix_rows_nonempty gmm X Hne)).
  cbn [mbind result_bind mret result_ret].
  do 2 f_equal. unfold multiply, loglikelihood_matrix, n_components.
  rewrite zip_with_map_map.
  rewrite (map_ext _ (fun x => map (fun c => fmul (responsibility gmm x c)
                                                  (component_loglikelihood x c))
                                   (components gmm)))
    by (intros x; apply zip_with_map_map).
  apply (sum_axis0_entries (fun x c => fmul (responsibility gmm x c)
                                            (component_loglikelihood x c))).
Qed.

(** C5. The contribution operation returns K per-component scalars,
    scalar [k] being the sum over the observations of responsibility
    times per-component log-likelihood, and one grand total, the sum
    over the observations of the row-wise log-sum-exp; the grand total
    is computed from the log-likelihood matrix alone. *)
Theorem compute_component_contributions_spec (gmm : GaussianMixture) (X : matrix) :
  components gmm <> [] ->
  Forall (fun c => mvn_check (mean c) (cov c) = Ok tt) (components gmm) ->
  exists log_probs totals,
    compute_component_loglikelihoods gmm X = Ok log_probs /\
    logsumexp_axis1 log_probs = Ok totals /\
    predict_proba gmm X
    = Ok (map (fun x => map (responsibility gmm x) (components gmm)) X) /\
    compute_component_contributions gmm X
    = Ok (map (fun c =>
                 np_sum (map (fun x => fmul (responsibility gmm x c)
                                            (component_loglikelihood x c)) X))
              (components gmm),
          np_sum totals).
Proof.
  intros Hne Hok.
  exists (loglikelihood_matrix gmm X), (map log_sum_of_exp (loglikelihood_matrix gmm X)).
  repeat split.
  - apply compute_component_loglikelihoods_Ok. assumption.
  - apply logsumexp_axis1_exact, loglikelihood_matrix_rows_nonempty. assumption.
  - apply predict_proba_Ok. assumption.
  - apply compute_component_contributions_Ok; assumption.
Qed.

(** C10. The grand total returned by the contribution operation is the
    sum of the values returned by the standalone total-log-likelihood
    operation: whenever the former returns, so does the latter, and the
    two agree; both return when scipy accepts every component. *)
Theorem contributions_total_agrees (gmm : GaussianMixture) (X : matrix) :
  (forall comp_ll total_ll,
      compute_component_contributions gmm X = Ok (comp_ll, total_ll) ->
      exists totals,
        compute_total_loglikelihood gmm X = Ok totals /\ total_ll = np_sum totals) /\
  (components gmm <> [] ->
   Forall (fun c => mvn_check (mean c) (cov c) = Ok tt) (components gmm) ->
   exists comp_ll totals,
     compute_component_contributions gmm X = Ok (comp_ll, np_sum totals) /\
     compute_total_loglikelihood gmm X = Ok totals).
Proof.
  split.
  - intros comp_ll total_ll. unfold compute_component_contributions,
      compute_total_loglikelihood.
    destruct (compute_component_loglikelihoods gmm X) as [log_probs | e];
      cbn [mbind result_bind]; [| discriminate].
    destruct (predict_proba gmm X) as [resp | e];
      cbn [mbind result_bind]; [| discriminate].
    destruct (logsumexp_axis1 log_probs) as [totals | e];
      cbn [mbind result_bind mret result_ret]; [| discriminate].
    intros Heq. unfold mret, result_ret in Heq.
    exists totals. split; [reflexivity | congruence].
  - intros Hne Hok. eexists _, _. split.
    + apply compute_component_contributions_Ok; assumption.
    + unfold compute_total_loglikelihood.
      rewrite (compute_component_loglikelihoods_Ok gmm X Hok).
      apply logsumexp_axis1_exact, loglikelihood_matrix_rows_nonempty. assumption.
Qed.

End Contributions.

(** ** Finalizer *)

Lemma argmax_nonempty (row : list float) :
  row <> [] -> argmax row = Ok (argmax_index row).
Proof. destruct row; [congruence | reflexivity]. Qed.

Lemma argmax_from_bound (l : list float) (best_i : nat) (best : float) (i : nat) :
  (best_i < i)%nat -> (argmax_from best_i best i l < i + length l)%nat.
Proof.
  revert best_i best i. induction l as [| x l IH]; intros best_i best i Hlt; cbn.
  - lia.
  - destruct (beats x best).
    + specialize (IH i x (S i)). lia.
    + specialize (IH best_i best (S i)). lia.
Qed.

Lemma argmax_index_bound (row : list float) :
  row <> [] -> (argmax_index row < length row)%nat.
Proof.
  destruct row as [| x r]; [congruence |]. intros _. cbn.
  pose proof (argmax_from_bound r 0 x 1). lia.
Qed.

(** A strictly increasing map of the entries does not move the arg-max. *)
Lemma argmax_from_increasing (phi : R -> R) (rs : list R) (best_i : nat) (b : R) (i : nat) :
  (forall a c, a < c <-> phi a < phi c) ->
  argmax_from best_i (Fin (phi b)) i (map Fin (map phi rs))
  = argmax_from best_i (Fin b) i (map Fin rs).
Proof.
  intros Hphi. revert best_i b i.
  induction rs as [| x rs IH]; intros best_i b i; cbn; [reflexivity |].
  destruct (Rlt_dec (phi b) (phi x)) as [H1 | H1], (Rlt_dec b x) as [H2 | H2];
    try apply IH; exfalso.
  - apply H2, (proj2 (Hphi b x)), H1.
  - apply H1, (proj1 (Hphi b x)), H2.
Qed.

Lemma argmax_index_increasing (phi : R -> R) (rs : list R) :
  (forall a c, a < c <-> phi a < phi c) ->
  argmax_index (map Fin (map phi rs)) = argmax_index (map Fin rs).
Proof.
  intros Hphi. destruct rs as [| b rs]; [reflexivity |].
  cbn. apply argmax_from_increasing. assumption.
Qed.

Lemma astype_int32_small (z : Z) :
  (- 2 ^ 31 <= z < 2 ^ 31)%Z -> astype_int32 z = z.
Proof.
  intros Hz. unfold astype_int32. rewrite Z.mod_small; lia.
Qed.

Lemma exp_shift_increasing (L : R) (a c : R) : a < c <-> exp (a + - L) < exp (c + - L).
Proof.
  split; intros H.
  - apply exp_increasing. lra.
  - apply exp_lt_inv in H. lra.
Qed.

Section Finalizer.
Context `{B : Backend}.

(** With positive weights every entry of the matrix is a number. *)
Lemma component_loglikelihood_pos (x : list R) (c : component) :
  0 < weight c ->
  component_loglikelihood x c
  = Fin (ln (weight c) + log_density x (mean c) (cov c)).
Proof.
  intros Hw. unfold component_loglikelihood. cbn [np_log].
  rewrite Rsign_pos by assumption. reflexivity.
Qed.

Lemma loglikelihood_row_pos (gmm : GaussianMixture) (x : list R) :
  Forall (fun c => 0 < weight c) (components gmm) ->
  map (component_loglikelihood x) (components gmm)
  = map Fin (map (fun c => ln (weight c) + log_density x (mean c) (cov c))
                 (components gmm)).
Proof.
  intros Hw. rewrite map_map. apply map_ext_Forall.
  eapply Forall_impl; [exact Hw |]. intros c Hc.
  apply component_loglikelihood_pos. assumption.
Qed.

Lemma log_sum_of_exp_finite (rs : list R) :
  rs <> [] -> exists L, log_sum_of_exp (map Fin rs) = Fin L.
Proof.
  intros Hne. unfold log_sum_of_exp.
  rewrite map_map. change (fun x => np_exp (Fin x)) with (fun x => Fin (exp x)).
  rewrite <- (map_map exp Fin), np_sum_Fin. cbn [np_log].
  rewrite Rsign_pos; [eexists; reflexivity |].
  apply Rsum_pos.
  - destruct rs; [congruence | discriminate].
  - apply Forall_map, Forall_forall. intros r _. apply exp_pos.
Qed.

(** The arg-max of the responsibilities of an observation is the
    arg-max of its weighted log-densities. *)
Lemma argmax_responsibility (gmm : GaussianMixture) (x : list R) :
  components gmm <> [] ->
  Forall (fun c => 0 < weight c) (components gmm) ->
  argmax_index (map (responsibility gmm x) (components gmm))
  = argmax_index (map (component_loglikelihood x) (components gmm)).
Proof.
  intros Hne Hw. unfold responsibility.
  rewrite <- (map_map (component_loglikelihood x)
                      (fun a => np_exp (fsub a (log_sum_of_exp
                         (map (component_loglikelihood x) (components gmm)))))).
  rewrite (loglikelihood_row_pos gmm x Hw).
  set (rs := map (fun c => ln (weight c) + log_density x (mean c) (cov c))
                 (components gmm)).
  assert (Hrs : rs <> []) by (subst rs; destruct (components gmm); [congruence | discriminate]).
  destruct (log_sum_of_exp_finite rs Hrs) as [L ->].
  rewrite map_map.
  change (fun x0 => np_exp (fsub (Fin x0) (Fin L))) with (fun x0 => Fin (exp (x0 + - L))).
  rewrite <- (map_map (fun r => exp (r + - L)) Fin).
  apply argmax_index_increasing. apply exp_shift_increasing.
Qed.

Lemma predict_Ok (gmm : GaussianMixture) (X : matrix) :
  components gmm <> [] ->
  predict gmm X
  = Ok (map (fun x => argmax_index (map (component_loglikelihood x) (components gmm))) X).
Proof.
  intros Hne. unfold predict. rewrite estimate_weighted_log_prob_matrix.
  unfold loglikelihood_matrix.
  rewrite <- (map_map _ argmax_index). apply mapM_Ok.
  apply Forall_map, Forall_forall. intros x _. cbn beta.
  apply argmax_nonempty. destruct (components gmm); [congruence | discriminate].
Qed.

(** C7. The finalizer returns the fitted model together with one
    integer label per observation; each label lies in [0, K-1] and is
    the arg-max of the posterior responsibilities of its observation
    under the fitted model (K components, positive weights). *)
Theorem build_model_and_fit_labels (lpa_data : matrix) (n : nat) (cfg : ModelConfig)
  (final_model : GaussianMixture) :
  gm_fit cfg n lpa_data = Ok final_model ->
  components final_model <> [] ->
  (Z.of_nat (n_components final_model) <= 2 ^ 31)%Z ->
  Forall (fun c => 0 < weight c) (components final_model) ->
  exists labels responsibilities,
    build_model_and_fit lpa_data n cfg = Ok (labels, final_model) /\
    predict_proba final_model lpa_data = Ok responsibilities /\
    Forall2 (fun label row =>
               (0 <= label < Z.of_nat (n_components final_model))%Z /\
               argmax row = Ok (Z.to_nat label))
            labels responsibilities.
Proof.
  intros Hfit Hne HK Hw.
  set (cs := components final_model) in *.
  exists (map (fun x => Z.of_nat (argmax_index (map (component_loglikelihood x) cs))) lpa_data),
         (map (fun x => map (responsibility final_model x) cs) lpa_data).
  assert (Hlen : forall x, (argmax_index (map (component_loglikelihood x) cs)
                            < n_components final_model)%nat).
  { intros x. unfold n_components. fold cs.
    rewrite <- (length_map (component_loglikelihood x) cs).
    apply argmax_index_bound. destruct cs; [congruence | discriminate]. }
  repeat split.
  - unfold build_model_and_fit. rewrite Hfit. cbn [mbind result_bind].
    rewrite (predict_Ok _ _ Hne). cbn [mbind result_bind mret result_ret].
    do 2 f_equal. rewrite map_map. apply map_ext. intros x. fold cs.
    apply astype_int32_small. specialize (Hlen x). lia.
  - apply predict_proba_Ok. assumption.
  - apply Forall2_fmap, Forall_Forall2_diag, Forall_forall. intros x _.
    specialize (Hlen x). split; [lia |].
    rewrite Nat2Z.id, argmax_nonempty.
    + f_equal. apply argmax_responsibility; assumption.
    + subst cs. destruct (components final_model); [congruence | discriminate].
Qed.

End Finalizer.

(** ** Model selector *)

Lemma compute_gmm_entropy_Ok (gmm : GaussianMixture) :
  Forall (fun c => is_square (cov c) = true) (components gmm) ->
  compute_gmm_entropy gmm = Ok (entropy_value gmm).
Proof.
  intros Hsq. unfold compute_gmm_entropy, entropy_value.
  set (D := shape1 (means_ gmm)).
  rewrite (mapM_Ok _ (fun wc => fmul (Fin wc.1)
             (fadd (np_log (Fin (det_value wc.2))) (Fin (INR D * (1 + ln (2 * PI))))))).
  - cbn [mbind result_bind mret result_ret]. unfold weights_, covariances_.
    rewrite zip_map_map, map_map. reflexivity.
  - unfold weights_, covariances_. rewrite zip_map_map. apply Forall_map.
    eapply Forall_impl; [exact Hsq |]. intros c Hc. cbn beta.
    apply component_entropy_term_value. assumption.
Qed.

Lemma foldM_app {A S : Type} (f : S -> A -> result S) (s : S) (l1 l2 : list A) :
  foldM f s (l1 ++ l2) = s' ← foldM f s l1; foldM f s' l2.
Proof.
  revert s. induction l1 as [| a l1 IH]; intros s; cbn [app foldM]; [reflexivity |].
  destruct (f s a) as [s1 | e]; cbn [mbind result_bind]; [apply IH | reflexivity].
Qed.

(** A loop one of whose bodies raises whatever the state does not
    complete. *)
Lemma foldM_raises {A S : Type} (f : S -> A -> result S) (s : S) (l : list A)
  (a : A) (e : exception) :
  In a l -> (forall s', f s' a = Raise e) ->
  exists e', foldM f s l = Raise e'.
Proof.
  intros Hin Hraise. revert s. induction l as [| b l IH]; intros s; [contradiction |].
  cbn [foldM]. destruct (f s b) as [s1 | e1] eqn:Hb; cbn [mbind result_bind].
  - destruct Hin as [-> | Hin]; [rewrite Hraise in Hb; discriminate | apply IH, Hin].
  - eexists. reflexivity.
Qed.

Lemma seq_split_at (start len k : nat) :
  (k < len)%nat ->
  seq start len = seq start k ++ (start + k)%nat :: seq (S (start + k)) (len - S k).
Proof.
  intros Hk. replace len with (k + S (len - S k))%nat at 1 by lia.
  rewrite seq_app. reflexivity.
Qed.

Section Sweep.
Context `{B : Backend}.

Lemma sweep_step_Ok (data : matrix) (cfg : ModelConfig) (st : sweep_state) (n : nat)
  (model : GaussianMixture) :
  gm_fit cfg n data = Ok model -> fitted model ->
  sweep_step data cfg st n
  = Ok {| aic_values := aic_values st ++ [gm_aic model data];
          bic_values := bic_values st ++ [gm_bic model data];
          n_components_seen := n_components_seen st ++ [n];
          entropy_values := entropy_values st ++ [entropy_value model];
          loglikely_hoods := loglikely_hoods st ++ [total_loglikelihood_value model data] |}.
Proof.
  intros Hfit (Hne & Hc). unfold sweep_step. rewrite Hfit. cbn [mbind result_bind].
  rewrite (predict_proba_Ok _ _ Hne). cbn [mbind result_bind].
  rewrite compute_component_contributions_Ok.
  - cbn [mbind result_bind]. rewrite compute_gmm_entropy_Ok; [reflexivity |].
    eapply Forall_impl; [exact Hc |]. intros c (_ & H). exact H.
  - assumption.
  - eapply Forall_impl; [exact Hc |]. intros c (H & _). exact H.
Qed.

Lemma sweep_step_Raise (data : matrix) (cfg : ModelConfig) (st : sweep_state) (n : nat)
  (e : exception) :
  gm_fit cfg n data = Raise e -> sweep_step data cfg st n = Raise e.
Proof. intros Hfit. unfold sweep_step. rewrite Hfit. reflexivity. Qed.

(** The loop over a range of candidates every one of which fits. *)
Lemma sweep_loop_Ok (data : matrix) (cfg : ModelConfig) (models : nat -> GaussianMixture)
  (l : list nat) (st : sweep_state) :
  Forall (fun n => gm_fit cfg n data = Ok (models n) /\ fitted (models n)) l ->
  foldM (sweep_step data cfg) st l
  = Ok {| aic_values := aic_values st ++ map (fun n => gm_aic (models n) data) l;
          bic_values := bic_values st ++ map (fun n => gm_bic (models n) data) l;
          n_components_seen := n_components_seen st ++ l;
          entropy_values := entropy_values st ++ map (fun n => entropy_value (models n)) l;
          loglikely_hoods :=
            loglikely_hoods st
            ++ map (fun n => total_loglikelihood_value (models n) data) l |}.
Proof.
  intros Hall. revert st. induction Hall as [| n l (Hfit & Hfitted) _ IH]; intros st.
  - cbn. rewrite !app_nil_r. destruct st; reflexivity.
  - cbn [foldM]. rewrite (sweep_step_Ok _ _ _ _ _ Hfit Hfitted). cbn [mbind result_bind].
    rewrite IH. cbn [aic_values bic_values n_components_seen entropy_values loglikely_hoods].
    rewrite <- !app_assoc. reflexivity.
Qed.

(** C4. When the nine fits succeed the sweep returns a table with the
    keys [aic, bic, n_components, log-likelihood, entropy] whose records
    are exactly nine, in the order K = 1, 2, ..., 9, each holding the
    AIC, BIC, total log-likelihood and entropy of the model fitted for
    that K. *)
Theorem finetune_model_records (data : matrix) (cfg : ModelConfig)
  (models : nat -> GaussianMixture) :
  (forall n, (1 <= n <= 9)%nat ->
             gm_fit cfg n data = Ok (models n) /\ fitted (models n)) ->
  exists results,
    finetune_model data cfg = Ok results /\
    map fst results
    = ["aic"; "bic"; "n_components"; "log-likelihood"; "entropy"]%string /\
    records results
    = map (fun n => selection_record data (models n) n) [1; 2; 3; 4; 5; 6; 7; 8; 9]%nat /\
    forall n, (1 <= n <= 9)%nat ->
      compute_gmm_entropy (models n) = Ok (entropy_value (models n)) /\
      exists comp_ll,
        compute_component_contributions (models n) data
        = Ok (comp_ll, total_loglikelihood_value (models n) data).
Proof.
  intros Hfits.
  assert (Hall : Forall (fun n => gm_fit cfg n data = Ok (models n) /\ fitted (models n))
                        n_profiles).
  { apply Forall_forall. intros n Hn. apply Hfits.
    apply list_elem_of_In, in_seq in Hn. lia. }
  eexists. split; [| split; [| split]].
  - unfold finetune_model. rewrite (sweep_loop_Ok _ _ _ _ _ Hall).
    cbn [mbind result_bind mret result_ret]. reflexivity.
  - reflexivity.
  - reflexivity.
  - intros n Hn. destruct (Hfits n Hn) as (_ & Hne & Hc). split.
    + apply compute_gmm_entropy_Ok.
      eapply Forall_impl; [exact Hc |]. intros c (_ & H). exact H.
    + eexists. apply compute_component_contributions_Ok; [assumption |].
      eapply Forall_impl; [exact Hc |]. intros c (H & _). exact H.
Qed.

(** C9. If fitting raises at a candidate K of the sweep, the sweep
    returns no table: it raises; and when the iterations before K
    complete, it raises the error of that fit. *)
Theorem finetune_model_fail_fast (data : matrix) (cfg : ModelConfig) (K : nat)
  (e : exception) :
  (1 <= K <= 9)%nat ->
  gm_fit cfg K data = Raise e ->
  (exists e', finetune_model data cfg = Raise e') /\
  ((forall n st, (1 <= n < K)%nat -> exists st', sweep_step data cfg st n = Ok st') ->
   finetune_model data cfg = Raise e).
Proof.
  intros HK Hfit. split.
  - destruct (foldM_raises (sweep_step data cfg) sweep_init n_profiles K e) as [e' He'].
    + apply in_seq. lia.
    + intros st. apply sweep_step_Raise. assumption.
    + exists e'. unfold finetune_model. rewrite He'. reflexivity.
  - intros Hbefore. unfold finetune_model, n_profiles.
    rewrite (seq_split_at 1 9 (K - 1)) by lia.
    replace (1 + (K - 1))%nat with K by lia.
    rewrite foldM_app.
    assert (Hpre : forall l st, Forall (fun n => (1 <= n < K)%nat) l ->
                     exists st', foldM (sweep_step data cfg) st l = Ok st').
    { induction l as [| n l IH]; intros st Hl; [eexists; reflexivity |].
      inversion Hl as [| ? ? Hn Hl']; subst.
      destruct (Hbefore n st Hn) as [st1 Hst1].
      cbn [foldM]. rewrite Hst1. cbn [mbind result_bind]. apply IH. assumption. }
    destruct (Hpre (seq 1 (K - 1)) sweep_init) as [st' ->].
    + apply Forall_forall. intros n Hn. apply list_elem_of_In, in_seq in Hn. lia.
    + cbn [mbind result_bind foldM]. rewrite (sweep_step_Raise _ _ _ _ _ Hfit).
      reflexivity.
Qed.

End Sweep.

(** ** Preprocessor *)

Lemma Rsum_map_shift_scale (c s : R) (l : list R) :
  Rsum (map (fun x => (x - c) / s) l) = (Rsum l - INR (length l) * c) / s.
Proof.
  induction l as [| x l IH].
  - cbn. unfold Rdiv. ring.
  - change (Rsum (map (fun x => (x - c) / s) (x :: l)))
      with ((x - c) / s + Rsum (map (fun x => (x - c) / s) l)).
    change (Rsum (x :: l)) with (x + Rsum l).
    rewrite IH. change (length (x :: l)) with (S (length l)). rewrite S_INR.
    unfold Rdiv. ring.
Qed.

Lemma Rsum_map_scale_sq (c s : R) (l : list R) :
  s <> 0 ->
  Rsum (map (fun y => (y - 0) ^ 2) (map (fun x => (x - c) / s) l))
  = Rsum (map (fun x => (x - c) ^ 2) l) / (s * s).
Proof.
  intros Hs. induction l as [| x l IH].
  - cbn. unfold Rdiv. ring.
  - change (Rsum (map (fun y => (y - 0) ^ 2) (map (fun x => (x - c) / s) (x :: l))))
      with (((x - c) / s - 0) ^ 2
            + Rsum (map (fun y => (y - 0) ^ 2) (map (fun x => (x - c) / s) l))).
    change (Rsum (map (fun x => (x - c) ^ 2) (x :: l)))
      with ((x - c) ^ 2 + Rsum (map (fun x => (x - c) ^ 2) l)).
    rewrite IH. field. assumption.
Qed.

Lemma Rsum_squares_nonneg (c : R) (l : list R) :
  0 <= Rsum (map (fun x => (x - c) ^ 2) l).
Proof.
  induction l as [| x l IH]; unfold Rsum in *; cbn [map foldr]; [lra |].
  pose proof (pow2_ge_0 (x - c)). lra.
Qed.

Lemma Rsum_squares_zero (c : R) (l : list R) :
  Rsum (map (fun x => (x - c) ^ 2) l) = 0 -> Forall (fun x => x = c) l.
Proof.
  induction l as [| x l IH]; intros Hz; [constructor |].
  change (Rsum (map (fun x => (x - c) ^ 2) (x :: l)))
    with ((x - c) ^ 2 + Rsum (map (fun x => (x - c) ^ 2) l)) in Hz.
  pose proof (pow2_ge_0 (x - c)) as H1.
  pose proof (Rsum_squares_nonneg c l) as H2.
  constructor.
  - assert (Hsq : (x - c) ^ 2 = 0) by lra.
    destruct (Req_dec (x - c) 0) as [H | H]; [lra |].
    exfalso. apply (pow_nonzero _ 2) in H. lra.
  - apply IH. lra.
Qed.

Lemma np_var_nonneg (l : list R) : l <> [] -> 0 <= np_var l.
Proof.
  intros Hne. unfold np_var, np_mean at 1. rewrite length_map.
  apply Rmult_le_pos; [apply Rsum_squares_nonneg |].
  left. apply Rinv_0_lt_compat, lt_0_INR. destruct l; [congruence | cbn; lia].
Qed.

(** A column of positive variance is mapped to mean 0 and variance 1; a
    column of variance 0 is mapped to zeros. *)
Lemma standardize_column (l : list R) :
  l <> [] ->
  let scaled := map (fun x => (x - np_mean l) / handle_zeros_in_scale (sqrt (np_var l))) l in
  (np_var l <> 0 -> np_mean scaled = 0 /\ np_var scaled = 1) /\
  (np_var l = 0 -> Forall (fun y => y = 0) scaled).
Proof.
  intros Hne scaled.
  assert (HN : 0 < INR (length l)).
  { apply lt_0_INR. destruct l; [congruence | cbn; lia]. }
  pose proof (np_var_nonneg l Hne) as Hv. split.
  - intros Hv0. assert (Hvpos : 0 < np_var l) by lra.
    pose proof (sqrt_lt_R0 _ Hvpos) as Hs.
    assert (Hmean : np_mean scaled = 0).
    { unfold np_mean at 1, scaled. rewrite length_map, Rsum_map_shift_scale.
      unfold handle_zeros_in_scale. rewrite (Rsign_pos _ Hs).
      unfold np_mean. field. split; lra. }
    split; [assumption |].
    unfold np_var. rewrite Hmean. unfold np_mean at 1. rewrite length_map.
    unfold scaled at 1. rewrite Rsum_map_scale_sq.
    + unfold scaled. rewrite length_map. unfold handle_zeros_in_scale.
      rewrite (Rsign_pos _ Hs), sqrt_sqrt by lra.
      assert (Hvdef : np_var l
                      = Rsum (map (fun x => (x - np_mean l) ^ 2) l) / INR (length l)).
      { unfold np_var, np_mean at 1. rewrite length_map. reflexivity. }
      rewrite Hvdef in Hvpos |- *.
      set (S := Rsum (map (fun x => (x - np_mean l) ^ 2) l)) in *.
      assert (HS : S <> 0).
      { intros Hz. rewrite Hz in Hvpos. unfold Rdiv in Hvpos. lra. }
      field. split; lra.
    + unfold handle_zeros_in_scale. rewrite (Rsign_pos _ Hs). lra.
  - intros Hv0. unfold scaled. rewrite Hv0, sqrt_0.
    unfold handle_zeros_in_scale. rewrite Rsign_zero.
    assert (Hall : Forall (fun x => x = np_mean l) l).
    { apply Rsum_squares_zero. unfold np_var, np_mean at 1 in Hv0.
      rewrite length_map in Hv0. unfold Rdiv in Hv0.
      apply Rmult_integral in Hv0. destruct Hv0 as [H | H]; [exact H |].
      pose proof (Rinv_0_lt_compat _ HN). lra. }
    apply Forall_map. eapply Forall_impl; [exact Hall |].
    intros x ->. unfold Rdiv. ring.
Qed.

Lemma nth_map_seq (F : nat -> R) (D j : nat) :
  (j < D)%nat -> nth j (map F (seq 0 D)) 0 = F j.
Proof.
  intros Hj. rewrite nth_lookup, lookup_map, lookup_seq_lt by assumption.
  reflexivity.
Qed.

(** One transformed row, entry by entry. *)
Lemma standardize_row (f g : nat -> R) (row : list R) (s : nat) :
  zip_with (fun xm sc => (xm.1 - xm.2) / sc)
           (zip row (map f (seq s (length row)))) (map g (seq s (length row)))
  = map (fun j => (nth (j - s) row 0 - f j) / g j) (seq s (length row)).
Proof.
  revert s. induction row as [| x row IH]; intros s; [reflexivity |].
  cbn [length seq map zip zip_with fst snd]. rewrite Nat.sub_diag. cbn [nth].
  f_equal. rewrite IH. apply map_ext_in. intros j Hj. apply in_seq in Hj.
  replace (j - s)%nat with (S (j - S s)) by lia. reflexivity.
Qed.

Lemma fit_transform_Ok (X : matrix) (D : nat) :
  X <> [] -> (0 < D)%nat -> Forall (fun row => length row = D) X ->
  fit_transform X
  = Ok (map (fun row =>
               map (fun j => (nth j row 0 - np_mean (column j X))
                             / handle_zeros_in_scale (sqrt (np_var (column j X))))
                   (seq 0 D))
            X).
Proof.
  intros Hne HD Hrows. unfold fit_transform.
  assert (Hshape : shape1 X = D).
  { destruct X as [| r X]; [congruence |]. inversion Hrows; subst. reflexivity. }
  rewrite Hshape.
  replace (Nat.eqb (length X) 0) with false
    by (destruct X; [congruence | reflexivity]).
  replace (Nat.eqb D 0) with false by (destruct D; [lia | reflexivity]).
  cbn [orb]. f_equal. rewrite map_map.
  apply map_ext_Forall. eapply Forall_impl; [exact Hrows |].
  intros row Hrow. cbn beta in *. rewrite <- Hrow.
  rewrite (standardize_row (fun j => np_mean (column j X))
             (fun j => handle_zeros_in_scale (sqrt (np_var (column j X)))) row 0).
  apply map_ext. intros j. rewrite Nat.sub_0_r. reflexivity.
Qed.

Lemma column_fit_transform (mu sigma : nat -> R) (X : matrix) (D j : nat) :
  (j < D)%nat ->
  column j (map (fun row => map (fun j => (nth j row 0 - mu j) / sigma j) (seq 0 D)) X)
  = map (fun x => (x - mu j) / sigma j) (column j X).
Proof.
  intros Hj. unfold column. rewrite !map_map.
  apply map_ext. intros row.
  apply (nth_map_seq (fun j => (nth j row 0 - mu j) / sigma j) D j Hj).
Qed.

(** C8, as the code has it.  On a matrix with at least one row and one
    column the preprocessor returns a matrix of the same shape, computed
    column by column from that matrix's own mean and variance; a column
    of non-zero variance comes out with mean 0 and variance 1, and a
    column of zero variance does not make it fail: it comes out as
    zeros. *)
Theorem fit_transform_standardizes (X : matrix) (D : nat) :
  X <> [] -> (0 < D)%nat -> Forall (fun row => length row = D) X ->
  exists Y,
    fit_transform X = Ok Y /\
    length Y = length X /\
    Forall (fun row => length row = D) Y /\
    forall j, (j < D)%nat ->
      column j Y
      = map (fun x => (x - np_mean (column j X))
                      / handle_zeros_in_scale (sqrt (np_var (column j X))))
            (column j X) /\
      (np_var (column j X) <> 0 ->
       np_mean (column j Y) = 0 /\ np_var (column j Y) = 1) /\
      (np_var (column j X) = 0 -> Forall (fun y => y = 0) (column j Y)).
Proof.
  intros Hne HD Hrows. eexists. split; [apply (fit_transform_Ok X D); assumption |].
  split; [apply length_map |]. split.
  - apply Forall_map, Forall_forall. intros row _. cbn beta.
    rewrite length_map. apply length_seq.
  - intros j Hj.
    rewrite (column_fit_transform (fun j => np_mean (column j X))
               (fun j => handle_zeros_in_scale (sqrt (np_var (column j X)))) X D j Hj).
    assert (Hcol : column j X <> []).
    { unfold column. destruct X; [congruence | discriminate]. }
    split; [reflexivity |]. apply (standardize_column (column j X) Hcol).
Qed.

(** ** The univariate instance *)

Lemma det_value_1x1 (v : R) : det_value [[v]] = v.
Proof. unfold det_value. cbn. ring. Qed.

Lemma grid_components_spec (n : nat) :
  Forall (fun c => weight c = 1 / INR n /\ cov c = [[1]] /\ exists k, mean c = [INR k])
         (components (grid_model n)).
Proof.
  unfold grid_model. cbn [components]. apply Forall_map, Forall_forall.
  intros k _. cbn. eauto.
Qed.

Lemma grid_model_nonempty (n : nat) : (0 < n)%nat -> components (grid_model n) <> [].
Proof. destruct n; [lia |]. discriminate. Qed.

Lemma grid_weights_pos (n : nat) :
  (0 < n)%nat -> Forall (fun c => 0 < weight c) (components (grid_model n)).
Proof.
  intros Hn. eapply Forall_impl; [apply grid_components_spec |].
  intros c (-> & _). apply Rdiv_lt_0_compat; [lra | apply lt_0_INR; assumption].
Qed.

Lemma grid_model_accepted (n : nat) :
  Forall (fun c => @mvn_check univariate_backend (mean c) (cov c) = Ok tt)
         (components (grid_model n)).
Proof.
  eapply Forall_impl; [apply grid_components_spec |].
  intros c (_ & -> & k & ->). cbn. rewrite Rsign_pos by lra. reflexivity.
Qed.

Lemma grid_model_square (n : nat) :
  Forall (fun c => is_square (cov c) = true /\ det_value (cov c) = 1)
         (components (grid_model n)).
Proof.
  eapply Forall_impl; [apply grid_components_spec |].
  intros c (_ & -> & _). split; [reflexivity | apply det_value_1x1].
Qed.

Lemma grid_model_fitted (n : nat) :
  (0 < n)%nat -> @fitted univariate_backend (grid_model n).
Proof.
  intros Hn. split; [apply grid_model_nonempty; assumption |].
  apply Forall_and. split.
  - apply grid_model_accepted.
  - eapply Forall_impl; [apply grid_model_square |]. intros c (H & _). exact H.
Qed.

Lemma grid_fit_Ok (cfg : ModelConfig) (n : nat) (data : matrix) :
  (0 < n <= length data)%nat -> grid_fit cfg n data = Ok (grid_model n).
Proof.
  intros Hn. unfold grid_fit.
  replace (Nat.eqb n 0) with false by (symmetry; apply Nat.eqb_neq; lia).
  replace (Nat.ltb (length data) n) with false by (symmetry; apply Nat.ltb_ge; lia).
  reflexivity.
Qed.

Example n_profiles_range : n_profiles = [1; 2; 3; 4; 5; 6; 7; 8; 9]%nat.
Proof. reflexivity. Qed.

Example astype_int32_wraps : astype_int32 (2 ^ 31) = (- 2 ^ 31)%Z.
Proof. reflexivity. Qed.

Example grid_fit_too_few_points :
  grid_fit default_ModelConfig 3 two_points = Raise ValueError.
Proof. reflexivity. Qed.

Example is_square_rejects_ragged : is_square [[1; 0]; [0]] = false.
Proof. reflexivity. Qed.

Example fit_transform_rejects_empty : fit_transform [] = Raise ValueError.
Proof. reflexivity. Qed.

Lemma grid_weights_sum_two : Rsum (weights_ (grid_model 2)) = 1.
Proof. unfold Rsum. cbn. lra. Qed.

(** The per-component contributions are a diagnostic of their own: on
    two identical components they add up to [a] while the grand total
    is [ln 2 + a]. *)
Lemma contributions_differ_from_total :
  exists comp_ll total_ll,
    @compute_component_contributions univariate_backend twin_model one_point
    = Ok (comp_ll, total_ll) /\
    np_sum comp_ll <> total_ll.
Proof.
  eexists _, _. split.
  - apply (@compute_component_contributions_Ok univariate_backend twin_model one_point).
    + discriminate.
    + repeat constructor; cbn; rewrite Rsign_pos by lra; reflexivity.
  - set (c := {| weight := 1 / 2; mean := [0]; cov := [[1]] |}).
    set (a := ln (1 / 2) + univariate_log_density [0] [0] [[1]]).
    assert (Hc : @component_loglikelihood univariate_backend [0] c = Fin a).
    { apply (@component_loglikelihood_pos univariate_backend). cbn. lra. }
    assert (Hlse : log_sum_of_exp [Fin a; Fin a] = Fin (ln 2 + a)).
    { unfold log_sum_of_exp. cbn [map np_exp np_sum foldr fadd np_log].
      pose proof (exp_pos a) as Ha.
      rewrite Rsign_pos by lra. f_equal.
      replace (exp a + (exp a + 0)) with (2 * exp a) by ring.
      rewrite ln_mult by lra. rewrite ln_exp. reflexivity. }
    assert (Hr : @responsibility univariate_backend twin_model [0] c = Fin (1 / 2)).
    { unfold responsibility. cbn [twin_model components map]. fold c.
      rewrite Hc, Hlse. cbn [fsub fneg fadd np_exp]. f_equal.
      replace (a + - (ln 2 + a)) with (- ln 2) by ring.
      rewrite exp_Ropp, exp_ln by lra. lra. }
    cbn [twin_model one_point components map loglikelihood_matrix]. fold c.
    rewrite Hr, Hc, Hlse. cbn [np_sum foldr fmul fadd].
    intros Heq. injection Heq as Heq.
    pose proof ln_lt_2. lra.
Qed.

(** C1 on the two-component grid model. *)
Lemma compute_gmm_entropy_formula_witness :
  compute_gmm_entropy (grid_model 2)
  = Ok (Fin (entropy_formula 1 (weights_ (grid_model 2))
                             (map det_value (covariances_ (grid_model 2))))).
Proof.
  apply (compute_gmm_entropy_formula (grid_model 2)).
  - exact grid_weights_sum_two.
  - pose proof (grid_weights_pos 2 ltac:(lia)) as Hw.
    pose proof (grid_model_square 2) as Hs.
    pose proof (conj Hw Hs) as H. apply Forall_and in H.
    eapply Forall_impl; [exact H |]. intros c (H1 & H2 & H3).
    split; [lra |]. split; [assumption | lra].
Defined.

(** C2 on the two-component grid model and two observations. *)
Lemma compute_component_loglikelihoods_entries_witness :
  exists log_probs,
    @compute_component_loglikelihoods univariate_backend (grid_model 2) two_points
    = Ok log_probs /\
    length log_probs = 2%nat.
Proof.
  destruct (@compute_component_loglikelihoods_entries univariate_backend
              (grid_model 2) two_points (grid_model_accepted 2))
    as (log_probs & H1 & H2 & _).
  exists log_probs. split; assumption.
Defined.

(** C3 on the two-component grid model and two observations. *)
Lemma compute_total_loglikelihood_exact_witness :
  exists log_probs,
    @compute_total_loglikelihood univariate_backend (grid_model 2) two_points
    = Ok (map log_sum_of_exp log_probs).
Proof.
  destruct (@compute_total_loglikelihood_exact univariate_backend
              (grid_model 2) two_points
              (grid_model_nonempty 2 ltac:(lia)) (grid_model_accepted 2))
    as (log_probs & _ & H2 & H3 & _).
  exists log_probs. rewrite H2. exact H3.
Defined.

(** C5 on the two-component grid model and two observations. *)
Lemma compute_component_contributions_spec_witness :
  exists comp_ll total_ll,
    @compute_component_contributions univariate_backend (grid_model 2) two_points
    = Ok (comp_ll, total_ll) /\ length comp_ll = 2%nat.
Proof.
  destruct (@compute_component_contributions_spec univariate_backend
              (grid_model 2) two_points
              (grid_model_nonempty 2 ltac:(lia)) (grid_model_accepted 2))
    as (log_probs & totals & _ & _ & _ & H).
  eexists _, _. split; [exact H | reflexivity].
Defined.

(** C10 on the two-component grid model and two observations. *)
Lemma contributions_total_agrees_witness :
  exists comp_ll totals,
    @compute_component_contributions univariate_backend (grid_model 2) two_points
    = Ok (comp_ll, np_sum totals) /\
    @compute_total_loglikelihood univariate_backend (grid_model 2) two_points
    = Ok totals.
Proof.
  exact (proj2 (@contributions_total_agrees univariate_backend (grid_model 2) two_points)
               (grid_model_nonempty 2 ltac:(lia)) (grid_model_accepted 2)).
Defined.

(** C6 on a mixture with a singular covariance and on the grid model. *)
Lemma compute_gmm_entropy_singular_witness :
  compute_gmm_entropy singular_model = Ok NInf /\
  exists r, compute_gmm_entropy (grid_model 2) = Ok (Fin r).
Proof.
  split.
  - apply (proj2 (compute_gmm_entropy_singular singular_model)).
    + repeat constructor; cbn [weight cov]; try lra; rewrite det_value_1x1; lra.
    + apply Exists_cons_hd. cbn [cov]. apply det_value_1x1.
  - apply (proj2 (compute_gmm_entropy_singular (grid_model 2))).
    + pose proof (conj (grid_weights_pos 2 ltac:(lia)) (grid_model_square 2)) as H.
      apply Forall_and in H. eapply Forall_impl; [exact H |].
      intros c (H1 & H2 & H3). split; [assumption |]. split; [assumption | lra].
    + eapply Forall_impl; [apply grid_model_square |]. intros c (_ & H). lra.
Defined.

(** C7 on two observations and two components. *)
Lemma build_model_and_fit_labels_witness :
  exists labels,
    @build_model_and_fit univariate_backend two_points 2 default_ModelConfig
    = Ok (labels, grid_model 2).
Proof.
  destruct (@build_model_and_fit_labels univariate_backend two_points 2
              default_ModelConfig (grid_model 2))
    as (labels & resp & H & _).
  - apply grid_fit_Ok. cbn. lia.
  - apply grid_model_nonempty. lia.
  - cbn. lia.
  - apply grid_weights_pos. lia.
  - exists labels. exact H.
Defined.

(** C4 on nine observations. *)
Lemma finetune_model_records_witness :
  exists results,
    @finetune_model univariate_backend nine_points default_ModelConfig = Ok results /\
    length (records results) = 9%nat.
Proof.
  destruct (@finetune_model_records univariate_backend nine_points default_ModelConfig
              grid_model)
    as (results & H1 & _ & H3 & _).
  - intros n Hn. split.
    + apply grid_fit_Ok. cbn. lia.
    + apply grid_model_fitted. lia.
  - exists results. split; [exact H1 | rewrite H3; reflexivity].
Defined.

(** C9 on two observations: the fit for K = 3 raises. *)
Lemma finetune_model_fail_fast_witness :
  @finetune_model univariate_backend two_points default_ModelConfig = Raise ValueError.
Proof.
  apply (@finetune_model_fail_fast univariate_backend two_points default_ModelConfig 3
           ValueError).
  - lia.
  - reflexivity.
  - intros n st Hn. eexists.
    apply (@sweep_step_Ok univariate_backend _ _ _ _ (grid_model n)).
    + apply grid_fit_Ok. cbn. lia.
    + apply grid_model_fitted. lia.
Defined.

(** C8: a constant column is not an error. *)
Lemma fit_transform_constant_column :
  np_var (column 0 constant_column) = 0 /\
  fit_transform constant_column = Ok [[0]; [0]] /\
  ~ (exists e, fit_transform constant_column = Raise e).
Proof.
  assert (Hmean : np_mean [1; 1] = 1) by (unfold np_mean, Rsum; cbn; lra).
  assert (Hvar : np_var [1; 1] = 0).
  { unfold np_var. rewrite Hmean. unfold np_mean, Rsum. cbn. lra. }
  assert (Hrun : fit_transform constant_column = Ok [[0]; [0]]).
  { rewrite (fit_transform_Ok constant_column 1);
      [| discriminate | lia | repeat constructor].
    cbn [constant_column column map seq nth]. rewrite Hmean, Hvar, sqrt_0.
    unfold handle_zeros_in_scale. rewrite Rsign_zero.
    do 2 f_equal; [| f_equal]; f_equal; lra. }
  split; [exact Hvar |]. split; [exact Hrun |].
  intros [e He]. rewrite Hrun in He. discriminate.
Qed.

(** C8 on a matrix with a constant and a varying column. *)
Lemma fit_transform_standardizes_witness :
  exists Y, fit_transform [[1; 0]; [1; 2]] = Ok Y /\ length Y = 2%nat.
Proof.
  destruct (fit_transform_standardizes [[1; 0]; [1; 2]] 2) as (Y & H1 & H2 & _).
  - discriminate.
  - lia.
  - repeat constructor.
  - exists Y. split; assumption.
Defined.

(** * Further properties *)

(** ** Preprocessor: standardizing twice, and changing units *)

Lemma np_mean_zeros (l : list R) : Forall (fun y => y = 0) l -> np_mean l = 0.
Proof.
  intros Hz. unfold np_mean.
  assert (Hs : Rsum l = 0).
  { induction Hz as [| y l Hy _ IH]; [reflexivity |].
    change (Rsum (y :: l)) with (y + Rsum l). lra. }
  rewrite Hs. unfold Rdiv. ring.
Qed.

Lemma np_var_zeros (l : list R) : Forall (fun y => y = 0) l -> np_var l = 0.
Proof.
  intros Hz. unfold np_var. rewrite (np_mean_zeros l Hz).
  apply np_mean_zeros. apply Forall_map. eapply Forall_impl; [exact Hz |].
  intros y ->. ring.
Qed.

(** A column that is already standardized, or all zeros, is left as it
    is: its mean is 0 and its scale is 1. *)
Lemma standardized_column_fixed (l : list R) :
  (np_mean l = 0 /\ np_var l = 1) \/ Forall (fun y => y = 0) l ->
  np_mean l = 0 /\ handle_zeros_in_scale (sqrt (np_var l)) = 1.
Proof.
  intros [[Hm Hv] | Hz].
  - split; [assumption |]. rewrite Hv, sqrt_1.
    unfold handle_zeros_in_scale. rewrite Rsign_pos by lra. reflexivity.
  - split; [apply np_mean_zeros; assumption |].
    rewrite (np_var_zeros l Hz), sqrt_0.
    unfold handle_zeros_in_scale. rewrite Rsign_zero. reflexivity.
Qed.

Lemma map_nth_seq_id (row : list R) :
  map (fun j => nth j row 0) (seq 0 (length row)) = row.
Proof.
  apply list_eq. intros i. rewrite lookup_map.
  destruct (decide (i < length row)%nat) as [Hi | Hi].
  - rewrite lookup_seq_lt by assumption. cbn.
    destruct (lookup_lt_is_Some_2 row i Hi) as [x Hx].
    rewrite Hx. f_equal. apply nth_lookup_Some with (d := 0). assumption.
  - rewrite lookup_seq_ge by lia. cbn. symmetry. apply lookup_ge_None. lia.
Qed.

(** X1. Standardizing is idempotent: the preprocessor returns its own output
    unchanged. *)
Theorem fit_transform_idempotent (X Y : matrix) (D : nat) :
  X <> [] -> (0 < D)%nat -> Forall (fun row => length row = D) X ->
  fit_transform X = Ok Y ->
  fit_transform Y = Ok Y.
Proof.
  intros Hne HD Hrows HY.
  assert (HYne : Y <> []).
  { rewrite (fit_transform_Ok X D Hne HD Hrows) in HY.
    injection HY as <-. destruct X; [congruence | discriminate]. }
  assert (HYrows : Forall (fun row => length row = D) Y).
  { rewrite (fit_transform_Ok X D Hne HD Hrows) in HY. injection HY as <-.
    apply Forall_map, Forall_forall. intros row _. cbn beta.
    rewrite length_map. apply length_seq. }
  assert (Hcols : forall j, (j < D)%nat ->
            np_mean (column j Y) = 0
            /\ handle_zeros_in_scale (sqrt (np_var (column j Y))) = 1).
  { intros j Hj. apply standardized_column_fixed.
    assert (Hcol : column j Y
              = map (fun x => (x - np_mean (column j X))
                              / handle_zeros_in_scale (sqrt (np_var (column j X))))
                    (column j X)).
    { rewrite (fit_transform_Ok X D Hne HD Hrows) in HY. injection HY as <-.
      apply (column_fit_transform (fun j => np_mean (column j X))
               (fun j => handle_zeros_in_scale (sqrt (np_var (column j X)))) X D j Hj). }
    assert (Hcne : column j X <> []).
    { unfold column. destruct X; [congruence | discriminate]. }
    destruct (standardize_column (column j X) Hcne) as [Hpos Hzero].
    rewrite Hcol. destruct (Req_dec (np_var (column j X)) 0) as [H0 | H0].
    - right. apply Hzero. assumption.
    - left. apply Hpos. assumption. }
  rewrite (fit_transform_Ok Y D HYne HD HYrows). f_equal.
  transitivity (map (fun row : list R => row) Y); [| apply map_id].
  apply map_ext_Forall.
  eapply Forall_impl; [exact HYrows |]. intros row Hrow. cbn beta in *.
  transitivity (map (fun j => nth j row 0) (seq 0 D));
    [| rewrite <- Hrow; apply map_nth_seq_id].
  apply map_ext_in. intros j Hj. apply in_seq in Hj.
  destruct (Hcols j ltac:(lia)) as [-> ->]. field.
Qed.

Lemma Rsum_map_affine (a b : R) (l : list R) :
  Rsum (map (fun x => a * x + b) l) = a * Rsum l + INR (length l) * b.
Proof.
  induction l as [| x l IH].
  - cbn. ring.
  - change (Rsum (map (fun x => a * x + b) (x :: l)))
      with (a * x + b + Rsum (map (fun x => a * x + b) l)).
    change (Rsum (x :: l)) with (x + Rsum l).
    change (length (x :: l)) with (S (length l)). rewrite IH, S_INR. ring.
Qed.

Lemma Rsum_map_scale_l {A : Type} (c : R) (f : A -> R) (l : list A) :
  Rsum (map (fun x => c * f x) l) = c * Rsum (map f l).
Proof.
  induction l as [| x l IH]; unfold Rsum in *; cbn [map foldr]; [ring |].
  rewrite IH. ring.
Qed.

Lemma np_mean_affine (a b : R) (l : list R) :
  l <> [] -> np_mean (map (fun x => a * x + b) l) = a * np_mean l + b.
Proof.
  intros Hne. unfold np_mean. rewrite length_map, Rsum_map_affine.
  field. apply not_0_INR. destruct l; [congruence | discriminate].
Qed.

Lemma np_var_affine (a b : R) (l : list R) :
  l <> [] -> np_var (map (fun x => a * x + b) l) = a * a * np_var l.
Proof.
  intros Hne. unfold np_var. rewrite (np_mean_affine a b l Hne), map_map.
  unfold np_mean at 1 3. rewrite !length_map.
  rewrite (map_ext _ (fun x => (a * a) * (x - np_mean l) ^ 2)) by (intros x; ring).
  rewrite (Rsum_map_scale_l (a * a) (fun x => (x - np_mean l) ^ 2)).
  unfold Rdiv. ring.
Qed.

(** One standardized entry does not depend on the unit of its column. *)
Lemma standardized_entry_affine (a b : R) (l : list R) (x : R) :
  0 < a -> In x l ->
  (a * x + b - np_mean (map (fun x => a * x + b) l))
  / handle_zeros_in_scale (sqrt (np_var (map (fun x => a * x + b) l)))
  = (x - np_mean l) / handle_zeros_in_scale (sqrt (np_var l)).
Proof.
  intros Ha Hin.
  assert (Hne : l <> []) by (destruct l; [contradiction | discriminate]).
  rewrite (np_mean_affine a b l Hne), (np_var_affine a b l Hne).
  pose proof (np_var_nonneg l Hne) as Hv.
  destruct (Req_dec (np_var l) 0) as [H0 | H0].
  - rewrite H0, Rmult_0_r, sqrt_0. unfold handle_zeros_in_scale. rewrite Rsign_zero.
    assert (Hx : x = np_mean l).
    { assert (Hall : Forall (fun x => x = np_mean l) l).
      { apply Rsum_squares_zero. unfold np_var, np_mean at 1 in H0.
        rewrite length_map in H0. unfold Rdiv in H0.
        apply Rmult_integral in H0. destruct H0 as [H | H]; [exact H |].
        exfalso. revert H. apply Rinv_neq_0_compat, not_0_INR.
        destruct l; [congruence | discriminate]. }
      apply (proj1 (List.Forall_forall _ _) Hall x Hin). }
    rewrite Hx. field.
  - assert (Hvpos : 0 < np_var l) by lra.
    pose proof (sqrt_lt_R0 _ Hvpos) as Hs.
    rewrite sqrt_mult by nra. rewrite sqrt_square by lra.
    unfold handle_zeros_in_scale.
    rewrite (Rsign_pos _ Hs), (Rsign_pos (a * sqrt (np_var l))) by nra.
    field. split; lra.
Qed.

Lemma nth_imap (f : nat -> R -> R) (row : list R) (j : nat) :
  (j < length row)%nat -> nth j (imap f row) 0 = f j (nth j row 0).
Proof.
  intros Hj. destruct (lookup_lt_is_Some_2 row j Hj) as [x Hx].
  rewrite (nth_lookup_Some _ _ 0 _ Hx).
  apply nth_lookup_Some. rewrite list_lookup_imap, Hx. reflexivity.
Qed.

(** X2. The preprocessor does not depend on the units of the raw columns:
    rescaling every column by a positive factor and shifting it leaves
    the standardized matrix unchanged. *)
Theorem fit_transform_units (a b : nat -> R) (X : matrix) (D : nat) :
  X <> [] -> (0 < D)%nat -> Forall (fun row => length row = D) X ->
  (forall j, 0 < a j) ->
  fit_transform (map (imap (fun j x => a j * x + b j)) X) = fit_transform X.
Proof.
  intros Hne HD Hrows Ha.
  set (f := fun (j : nat) (x : R) => a j * x + b j).
  assert (Hne' : map (imap f) X <> []) by (destruct X; [congruence | discriminate]).
  assert (Hrows' : Forall (fun row => length row = D) (map (imap f) X)).
  { apply Forall_map. eapply Forall_impl; [exact Hrows |].
    intros row Hrow. cbn beta in *. rewrite length_imap. assumption. }
  assert (Hcol : forall j, (j < D)%nat ->
            column j (map (imap f) X) = map (fun x => a j * x + b j) (column j X)).
  { intros j Hj. unfold column. rewrite !map_map. apply map_ext_Forall.
    eapply Forall_impl; [exact Hrows |]. intros row Hrow. cbn beta in *.
    apply nth_imap. lia. }
  rewrite (fit_transform_Ok _ D Hne' HD Hrows'), (fit_transform_Ok X D Hne HD Hrows).
  f_equal. rewrite map_map. apply map_ext_in. intros row Hrow.
  pose proof (proj1 (List.Forall_forall _ _) Hrows row Hrow) as Hlen. cbn beta in Hlen.
  apply map_ext_in. intros j Hj. apply in_seq in Hj.
  rewrite (Hcol j ltac:(lia)), nth_imap by lia. unfold f.
  apply standardized_entry_affine; [apply Ha |].
  unfold column. apply in_map_iff. exists row. split; [reflexivity | assumption].
Qed.

(** ** Entropy estimator: errors, relabelling, bounds *)

Lemma component_entropy_term_cases (D : nat) (w : R) (c : matrix) :
  (is_square c = true /\ exists t, component_entropy_term D (w, c) = Ok t) \/
  (is_square c = false /\ component_entropy_term D (w, c) = Raise ValueError).
Proof.
  destruct (is_square c) eqn:Hsq.
  - left. split; [reflexivity |]. eexists. apply component_entropy_term_value. assumption.
  - right. split; [reflexivity |]. unfold component_entropy_term, det. cbn [fst snd].
    rewrite Hsq. reflexivity.
Qed.

Lemma compute_gmm_entropy_not_square (gmm : GaussianMixture) :
  Exists (fun c => is_square (cov c) = false) (components gmm) ->
  compute_gmm_entropy gmm = Raise ValueError.
Proof.
  intros Hex. unfold compute_gmm_entropy.
  assert (Hterms : mapM (component_entropy_term (shape1 (means_ gmm)))
                        (zip (weights_ gmm) (covariances_ gmm)) = Raise ValueError).
  { unfold weights_, covariances_. rewrite zip_map_map.
    induction Hex as [c l Hc | c l _ IH].
    - change (mapM ?f (map ?g (c :: l))) with (b ← f (g c); bs ← mapM f (map g l); mret (b :: bs)).
      destruct (component_entropy_term_cases (shape1 (means_ gmm)) (weight c) (cov c))
        as [[Hsq _] | [_ ->]]; [congruence | reflexivity].
    - change (mapM ?f (map ?g (c :: l))) with (b ← f (g c); bs ← mapM f (map g l); mret (b :: bs)).
      destruct (component_entropy_term_cases (shape1 (means_ gmm)) (weight c) (cov c))
        as [[_ [t ->]] | [_ ->]]; [| reflexivity].
      cbn [mbind result_bind]. rewrite IH. reflexivity. }
  rewrite Hterms. reflexivity.
Qed.

Lemma all_square_or_not (gmm : GaussianMixture) :
  Forall (fun c => is_square (cov c) = true) (components gmm) \/
  Exists (fun c => is_square (cov c) = false) (components gmm).
Proof.
  induction (components gmm) as [| c l [IH | IH]].
  - left. constructor.
  - destruct (is_square (cov c)) eqn:Hc.
    + left. constructor; assumption.
    + right. apply Exists_cons_hd. assumption.
  - right. apply Exists_cons_tl. assumption.
Qed.

(** X3. The entropy estimator raises exactly when some covariance is not a
    square matrix, and then it raises [ValueError]. *)
Theorem compute_gmm_entropy_raises (gmm : GaussianMixture) (e : exception) :
  compute_gmm_entropy gmm = Raise e <->
  e = ValueError /\ Exists (fun c => is_square (cov c) = false) (components gmm).
Proof.
  split.
  - intros Hraise. destruct (all_square_or_not gmm) as [Hall | Hex].
    + rewrite (compute_gmm_entropy_Ok gmm Hall) in Hraise. discriminate.
    + rewrite (compute_gmm_entropy_not_square gmm Hex) in Hraise.
      split; [congruence | assumption].
  - intros [-> Hex]. apply compute_gmm_entropy_not_square. assumption.
Qed.

(** *** Relabelling the components *)

Lemma np_sum_Permutation (l l' : list float) :
  Permutation l l' -> np_sum l = np_sum l'.
Proof.
  induction 1 as [| x l l' _ IH | x y l | l l' l'' _ IH1 _ IH2].
  - reflexivity.
  - change (fadd x (np_sum l) = fadd x (np_sum l')). rewrite IH. reflexivity.
  - change (fadd y (fadd x (np_sum l)) = fadd x (fadd y (np_sum l))).
    rewrite <- !fadd_assoc, (fadd_comm y x). reflexivity.
  - congruence.
Qed.

Lemma Rsum_Permutation (l l' : list R) : Permutation l l' -> Rsum l = Rsum l'.
Proof.
  induction 1 as [| x l l' _ IH | x y l | l l' l'' _ IH1 _ IH2];
    unfold Rsum in *; cbn [foldr]; lra.
Qed.

Lemma shape1_means_Permutation (cs cs' : list component) (D : nat) :
  Permutation cs cs' -> Forall (fun c => length (mean c) = D) cs ->
  shape1 (map mean cs) = shape1 (map mean cs').
Proof.
  intros Hp Hlen.
  assert (Hlen' : Forall (fun c => length (mean c) = D) cs').
  { apply List.Forall_forall. intros c Hc.
    apply (proj1 (List.Forall_forall _ _) Hlen c).
    apply (Permutation_in c (Permutation_sym Hp) Hc). }
  destruct cs as [| c cs], cs' as [| c' cs'].
  - reflexivity.
  - apply Permutation_nil_l in Hp. discriminate.
  - apply Permutation_nil_r in Hp. discriminate.
  - inversion Hlen; inversion Hlen'; subst. cbn. congruence.
Qed.

(** X4. The entropy estimate does not depend on the order in which the
    components are stored. *)
Theorem compute_gmm_entropy_relabel (gmm gmm' : GaussianMixture) (D : nat) :
  Permutation (components gmm) (components gmm') ->
  Forall (fun c => length (mean c) = D) (components gmm) ->
  compute_gmm_entropy gmm = compute_gmm_entropy gmm'.
Proof.
  intros Hp Hlen. destruct (all_square_or_not gmm) as [Hall | Hex].
  - assert (Hall' : Forall (fun c => is_square (cov c) = true) (components gmm')).
    { apply List.Forall_forall. intros c Hc.
      apply (proj1 (List.Forall_forall _ _) Hall c).
      apply (Permutation_in c (Permutation_sym Hp) Hc). }
    rewrite (compute_gmm_entropy_Ok gmm Hall), (compute_gmm_entropy_Ok gmm' Hall').
    f_equal. unfold entropy_value, entropy, weights_, means_.
    rewrite (shape1_means_Permutation _ _ D Hp Hlen).
    rewrite (Rsum_Permutation _ _ (Permutation_map weight Hp)).
    f_equal; [| f_equal]; apply np_sum_Permutation.
    + apply Permutation_map, Permutation_map. assumption.
    + apply Permutation_map. assumption.
  - assert (Hex' : Exists (fun c => is_square (cov c) = false) (components gmm')).
    { apply List.Exists_exists in Hex. destruct Hex as (c & Hc & Hsq).
      apply List.Exists_exists. exists c. split; [| assumption].
      apply (Permutation_in c Hp Hc). }
    rewrite (compute_gmm_entropy_not_square gmm Hex).
    rewrite (compute_gmm_entropy_not_square gmm' Hex'). reflexivity.
Qed.

(** *** Bounds *)

Lemma ln_le_sub1 (y : R) : 0 < y -> ln y <= y - 1.
Proof.
  intros Hy. pose proof (exp_ineq1_le (ln y)) as H.
  rewrite exp_ln in H by assumption. lra.
Qed.

Lemma ln_nonpos (p : R) : 0 < p <= 1 -> ln p <= 0.
Proof. intros Hp. pose proof (ln_le_sub1 p ltac:(lra)). lra. Qed.

Lemma Rsum_le_compat {A : Type} (f g : A -> R) (l : list A) :
  Forall (fun a => f a <= g a) l -> Rsum (map f l) <= Rsum (map g l).
Proof.
  induction 1 as [| a l Ha _ IH]; unfold Rsum in *; cbn [map foldr]; lra.
Qed.

Lemma Rsum_nonneg (l : list R) : Forall (fun p => 0 <= p) l -> 0 <= Rsum l.
Proof. induction 1 as [| p l Hp _ IH]; unfold Rsum in *; cbn [foldr]; lra. Qed.

Lemma Rsum_le_total (l : list R) :
  Forall (fun p => 0 <= p) l -> Forall (fun p => p <= Rsum l) l.
Proof.
  induction 1 as [| p l Hp Hl IH]; constructor.
  - pose proof (Rsum_nonneg l Hl). unfold Rsum in *. cbn [foldr]. lra.
  - eapply Forall_impl; [exact IH |]. intros q Hq. unfold Rsum in *. cbn [foldr]. lra.
Qed.

Lemma Rsum_map_const {A : Type} (c : R) (l : list A) :
  Rsum (map (fun _ => c) l) = INR (length l) * c.
Proof.
  induction l as [| a l IH].
  - cbn. ring.
  - change (Rsum (map (fun _ => c) (a :: l))) with (c + Rsum (map (fun _ : A => c) l)).
    change (length (a :: l)) with (S (length l)). rewrite IH, S_INR. ring.
Qed.

Lemma Rsum_map_minus {A : Type} (f g : A -> R) (l : list A) :
  Rsum (map (fun a => f a - g a) l) = Rsum (map f l) - Rsum (map g l).
Proof.
  induction l as [| a l IH]; unfold Rsum in *; cbn [map foldr]; [ring |].
  rewrite IH. ring.
Qed.

(** The Shannon entropy of K weights lies between 0 and [ln K]. *)
Lemma H_categorical_bounds (w : list R) :
  w <> [] -> Rsum w = 1 -> Forall (fun p => 0 <= p) w ->
  0 <= H_categorical w <= ln (INR (length w)).
Proof.
  intros Hne Hsum Hpos.
  assert (HK : 0 < INR (length w)).
  { apply lt_0_INR. destruct w; [congruence | cbn; lia]. }
  pose proof (Rsum_le_total w Hpos) as Hle1. rewrite Hsum in Hle1.
  unfold H_categorical. split.
  - rewrite <- Rsum_map_opp. apply Rsum_nonneg, Forall_map.
    pose proof (conj Hpos Hle1) as H. apply Forall_and in H.
    eapply Forall_impl; [exact H |]. intros p [Hp0 Hp1]. cbn beta in *.
    destruct (Req_dec p 0) as [-> | Hnz]; [lra |].
    pose proof (ln_nonpos p ltac:(lra)). nra.
  - set (K := INR (length w)) in *.
    assert (Hterm : Forall (fun p => - (p * ln p) - p * ln K <= / K - p) w).
    { eapply Forall_impl; [exact Hpos |]. intros p Hp0. cbn beta in *.
      pose proof (Rinv_0_lt_compat K HK) as HiK.
      destruct (Req_dec p 0) as [-> | Hnz]; [lra |].
      assert (Hp : 0 < p) by lra.
      pose proof (ln_le_sub1 (/ (K * p))
                    ltac:(apply Rinv_0_lt_compat, Rmult_lt_0_compat; assumption)) as Hln.
      rewrite ln_Rinv in Hln by (apply Rmult_lt_0_compat; assumption).
      rewrite ln_mult in Hln by assumption.
      assert (Hq : p * / (K * p) = / K) by (field; split; lra).
      nra. }
    apply Rsum_le_compat in Hterm.
    rewrite (Rsum_map_minus (fun p => - (p * ln p)) (fun p => p * ln K)) in Hterm.
    rewrite (Rsum_map_minus (fun _ => / K) (fun p => p)) in Hterm.
    rewrite Rsum_map_opp, Rsum_map_const, map_id, Hsum in Hterm.
    rewrite (map_ext (fun p => p * ln K) (fun p => ln K * p)) in Hterm by (intros; ring).
    rewrite (Rsum_map_scale_l (ln K) (fun p => p)), map_id, Hsum in Hterm.
    fold K in Hterm. replace (K * / K) with 1 in Hterm by (field; lra). lra.
Qed.

Lemma entropy_value_real (gmm : GaussianMixture) :
  Rsum (weights_ gmm) = 1 ->
  Forall (fun c => 0 <= weight c /\ 0 < det_value (cov c)) (components gmm) ->
  entropy_value gmm
  = Fin (entropy_formula (shape1 (means_ gmm)) (weights_ gmm)
                         (map det_value (covariances_ gmm))).
Proof.
  intros Hsum Hc. unfold entropy_value.
  rewrite entropy_normalised.
  - replace (map _ (components gmm))
      with (map Fin (map (fun c => weight c * (ln (det_value (cov c))
                                   + INR (shape1 (means_ gmm)) * (1 + ln (2 * PI))))
                         (components gmm))).
    + rewrite np_sum_Fin. cbn [fmul fadd]. unfold entropy_formula, weights_, covariances_.
      rewrite map_map, zip_map_map, map_map. reflexivity.
    + rewrite map_map. apply map_ext_Forall. eapply Forall_impl; [exact Hc |].
      intros c [_ Hd]. cbn beta. cbn [np_log]. rewrite Rsign_pos by assumption.
      reflexivity.
  - assumption.
  - unfold weights_. apply Forall_map. eapply Forall_impl; [exact Hc |].
    intros c [H _]. exact H.
Qed.

(** X5. The entropy estimate exceeds the weighted mean of the component
    entropies by the mixing entropy, which is between 0 and [ln K]. *)
Theorem compute_gmm_entropy_bounds (gmm : GaussianMixture) :
  components gmm <> [] ->
  Rsum (weights_ gmm) = 1 ->
  Forall (fun c => 0 <= weight c /\ is_square (cov c) = true /\ 0 < det_value (cov c))
         (components gmm) ->
  let mean_component_entropy :=
    0.5 * Rsum (map (fun c => weight c * (ln (det_value (cov c))
                                + INR (shape1 (means_ gmm)) * (1 + ln (2 * PI))))
                    (components gmm)) in
  exists h,
    compute_gmm_entropy gmm = Ok (Fin h) /\
    mean_component_entropy <= h <= mean_component_entropy + ln (INR (n_components gmm)).
Proof.
  intros Hne Hsum Hc avg.
  exists (entropy_formula (shape1 (means_ gmm)) (weights_ gmm)
                          (map det_value (covariances_ gmm))).
  split.
  - rewrite compute_gmm_entropy_Ok.
    + f_equal. apply entropy_value_real; [assumption |].
      eapply Forall_impl; [exact Hc |]. intros c (H1 & _ & H3). split; assumption.
    + eapply Forall_impl; [exact Hc |]. intros c (_ & H & _). exact H.
  - assert (Hb : 0 <= H_categorical (weights_ gmm) <= ln (INR (length (weights_ gmm)))).
    { apply H_categorical_bounds.
      - unfold weights_. destruct (components gmm); [congruence | discriminate].
      - assumption.
      - unfold weights_. apply Forall_map. eapply Forall_impl; [exact Hc |].
        intros c (H & _). exact H. }
    unfold weights_ in Hb at 3. rewrite length_map in Hb. fold (n_components gmm) in Hb.
    unfold entropy_formula, weights_, covariances_.
    rewrite map_map, zip_map_map, map_map. cbn [fst snd]. fold (weights_ gmm).
    subst avg. lra.
Qed.

(** ** Likelihood decomposer: errors *)

Section DecomposerErrors.
Context `{B : Backend}.

Lemma compute_component_loglikelihoods_loop (gmm : GaussianMixture) (X : matrix) :
  compute_component_loglikelihoods gmm X
  = foldM (loglikelihood_column_step gmm X)
          (partial_log_probs (components gmm) X 0) (seq 0 (n_components gmm)).
Proof.
  unfold compute_component_loglikelihoods.
  replace (replicate (length X) (replicate (n_components gmm) (Fin 0)))
    with (partial_log_probs (components gmm) X 0); [reflexivity |].
  unfold partial_log_probs, n_components. cbn [take app].
  rewrite Nat.sub_0_r. induction X as [| x X IH]; cbn; [reflexivity |].
  rewrite IH. reflexivity.
Qed.

Lemma loglikelihood_column_step_Ok (gmm : GaussianMixture) (X : matrix) (j : nat)
  (c : component) :
  components gmm !! j = Some c -> mvn_check (mean c) (cov c) = Ok tt ->
  loglikelihood_column_step gmm X (partial_log_probs (components gmm) X j) j
  = Ok (partial_log_probs (components gmm) X (S j)).
Proof.
  intros Hc Hok. unfold loglikelihood_column_step, means_, covariances_, weights_.
  rewrite !(getitem_map _ _ _ _ Hc). cbn [mbind result_bind].
  unfold multivariate_normal_logpdf. rewrite Hok.
  cbn [mbind result_bind mret result_ret].
  rewrite (set_column_partial _ _ _ _ Hc). reflexivity.
Qed.

Lemma loglikelihood_column_step_Raise (gmm : GaussianMixture) (X : matrix) (j : nat)
  (c : component) (e : exception) (log_probs : list (list float)) :
  components gmm !! j = Some c -> mvn_check (mean c) (cov c) = Raise e ->
  loglikelihood_column_step gmm X log_probs j = Raise e.
Proof.
  intros Hc Hraise. unfold loglikelihood_column_step, means_, covariances_, weights_.
  rewrite !(getitem_map _ _ _ _ Hc). cbn [mbind result_bind].
  unfold multivariate_normal_logpdf. rewrite Hraise. reflexivity.
Qed.

(** The columns of an accepted prefix of the components are written. *)
Lemma column_loop_prefix (gmm : GaussianMixture) (X : matrix) (pre post : list component) :
  components gmm = pre ++ post ->
  Forall (fun c => mvn_check (mean c) (cov c) = Ok tt) pre ->
  foldM (loglikelihood_column_step gmm X)
        (partial_log_probs (components gmm) X 0) (seq 0 (length pre))
  = Ok (partial_log_probs (components gmm) X (length pre)).
Proof.
  intros Hcs. revert post Hcs. induction pre as [| c pre IH] using rev_ind;
    intros post Hcs Hok.
  - reflexivity.
  - rewrite length_app. cbn [length]. rewrite seq_app, foldM_app.
    apply Forall_app in Hok. destruct Hok as [Hpre Hc].
    rewrite (IH (c :: post)); [| rewrite Hcs, <- app_assoc; reflexivity | assumption].
    cbn [mbind result_bind seq foldM Nat.add].
    rewrite (loglikelihood_column_step_Ok gmm X (length pre) c).
    + cbn [mbind result_bind]. rewrite Nat.add_1_r. reflexivity.
    + rewrite Hcs, <- app_assoc. rewrite lookup_app_r by lia.
      rewrite Nat.sub_diag. reflexivity.
    + inversion Hc. assumption.
Qed.

Lemma first_rejected (cs : list component) :
  Forall (fun c => mvn_check (mean c) (cov c) = Ok tt) cs \/
  exists pre c post e,
    cs = pre ++ c :: post /\
    Forall (fun c => mvn_check (mean c) (cov c) = Ok tt) pre /\
    mvn_check (mean c) (cov c) = Raise e.
Proof.
  induction cs as [| c cs IH]; [left; constructor |].
  destruct (mvn_check (mean c) (cov c)) as [[] | e] eqn:Hc.
  - destruct IH as [Hall | (pre & c' & post & e & -> & Hpre & Hc')].
    + left. constructor; assumption.
    + right. exists (c :: pre), c', post, e. repeat split; [constructor |]; assumption.
  - right. exists [], c, cs, e. repeat split; [constructor | assumption].
Qed.

Lemma compute_component_loglikelihoods_rejected (gmm : GaussianMixture) (X : matrix)
  (pre post : list component) (c : component) (e : exception) :
  components gmm = pre ++ c :: post ->
  Forall (fun c => mvn_check (mean c) (cov c) = Ok tt) pre ->
  mvn_check (mean c) (cov c) = Raise e ->
  compute_component_loglikelihoods gmm X = Raise e.
Proof.
  intros Hcs Hpre Hc. rewrite compute_component_loglikelihoods_loop.
  unfold n_components. rewrite Hcs at 2. rewrite length_app. cbn [length].
  rewrite seq_app, foldM_app.
  rewrite (column_loop_prefix gmm X pre (c :: post) Hcs Hpre).
  cbn [mbind result_bind seq foldM Nat.add].
  rewrite (loglikelihood_column_step_Raise gmm X (length pre) c e); [reflexivity | | assumption].
  rewrite Hcs, lookup_app_r by lia. rewrite Nat.sub_diag. reflexivity.
Qed.

(** X6. The per-component operation raises exactly when scipy rejects the
    parameters of some component, and the exception is that of the
    first component rejected: the lookups [means_[k]], [covariances_[k]]
    and [weights_[k]] are never the cause. *)
Theorem compute_component_loglikelihoods_raises (gmm : GaussianMixture) (X : matrix)
  (e : exception) :
  compute_component_loglikelihoods gmm X = Raise e <->
  exists pre c post,
    components gmm = pre ++ c :: post /\
    Forall (fun c => mvn_check (mean c) (cov c) = Ok tt) pre /\
    mvn_check (mean c) (cov c) = Raise e.
Proof.
  split.
  - intros Hraise.
    destruct (first_rejected (components gmm))
      as [Hall | (pre & c & post & e' & Hcs & Hpre & Hc)].
    + rewrite (compute_component_loglikelihoods_Ok gmm X Hall) in Hraise. discriminate.
    + rewrite (compute_component_loglikelihoods_rejected gmm X pre post c e' Hcs Hpre Hc)
        in Hraise.
      exists pre, c, post. repeat split; [assumption | assumption | congruence].
  - intros (pre & c & post & Hcs & Hpre & Hc).
    apply (compute_component_loglikelihoods_rejected gmm X pre post c e); assumption.
Qed.

End DecomposerErrors.

(** ** Likelihood decomposer: numbers *)

Section DecomposerNumbers.
Context `{B : Backend}.

Lemma component_loglikelihood_real (x : list R) (c : component) :
  0 < weight c -> component_loglikelihood x c = Fin (weighted_log_density x c).
Proof. apply component_loglikelihood_pos. Qed.

Lemma loglikelihood_row_real (gmm : GaussianMixture) (x : list R) :
  Forall (fun c => 0 < weight c) (components gmm) ->
  map (component_loglikelihood x) (components gmm)
  = map Fin (map (weighted_log_density x) (components gmm)).
Proof. apply loglikelihood_row_pos. Qed.

Lemma exp_sum_pos {A : Type} (f : A -> R) (l : list A) :
  l <> [] -> 0 < Rsum (map (fun a => exp (f a)) l).
Proof.
  intros Hne. apply Rsum_pos.
  - destruct l; [congruence | discriminate].
  - apply Forall_map, Forall_forall. intros a _. apply exp_pos.
Qed.

Lemma log_sum_of_exp_real (gmm : GaussianMixture) (x : list R) :
  components gmm <> [] ->
  Forall (fun c => 0 < weight c) (components gmm) ->
  log_sum_of_exp (map (component_loglikelihood x) (components gmm))
  = Fin (mixture_loglikelihood gmm x).
Proof.
  intros Hne Hw. rewrite (loglikelihood_row_real gmm x Hw).
  unfold log_sum_of_exp, mixture_loglikelihood.
  rewrite !map_map. change (fun c => np_exp (Fin (weighted_log_density x c)))
    with (fun c => Fin (exp (weighted_log_density x c))).
  rewrite <- (map_map (fun c => exp (weighted_log_density x c)) Fin), np_sum_Fin.
  cbn [np_log]. rewrite Rsign_pos; [reflexivity |].
  apply exp_sum_pos. assumption.
Qed.

Lemma responsibility_real (gmm : GaussianMixture) (x : list R) (c : component) :
  components gmm <> [] ->
  Forall (fun c => 0 < weight c) (components gmm) ->
  0 < weight c ->
  responsibility gmm x c = Fin (posterior gmm x c).
Proof.
  intros Hne Hw Hc. unfold responsibility, posterior.
  rewrite (log_sum_of_exp_real gmm x Hne Hw), (component_loglikelihood_real x c Hc).
  reflexivity.
Qed.

Lemma total_loglikelihood_real (gmm : GaussianMixture) (X : matrix) :
  components gmm <> [] ->
  Forall (fun c => mvn_check (mean c) (cov c) = Ok tt) (components gmm) ->
  Forall (fun c => 0 < weight c) (components gmm) ->
  compute_total_loglikelihood gmm X = Ok (map Fin (map (mixture_loglikelihood gmm) X)).
Proof.
  intros Hne Hok Hw. unfold compute_total_loglikelihood.
  rewrite (compute_component_loglikelihoods_Ok gmm X Hok). cbn [mbind result_bind].
  rewrite (logsumexp_axis1_exact _ (loglikelihood_matrix_rows_nonempty gmm X Hne)).
  f_equal. unfold loglikelihood_matrix. rewrite !map_map.
  apply map_ext. intros x. apply log_sum_of_exp_real; assumption.
Qed.

(** Each weighted log-density is at most the mixture log-likelihood,
    which is at most the largest of them plus [ln K]. *)
Lemma mixture_loglikelihood_bounds (gmm : GaussianMixture) (x : list R) :
  components gmm <> [] ->
  Forall (fun c => weighted_log_density x c <= mixture_loglikelihood gmm x)
         (components gmm) /\
  forall m, Forall (fun c => weighted_log_density x c <= m) (components gmm) ->
            mixture_loglikelihood gmm x <= m + ln (INR (n_components gmm)).
Proof.
  intros Hne. unfold mixture_loglikelihood.
  set (S := Rsum (map (fun c => exp (weighted_log_density x c)) (components gmm))).
  assert (HS : 0 < S) by (apply exp_sum_pos; assumption).
  assert (HK : 0 < INR (n_components gmm)).
  { apply lt_0_INR. unfold n_components. destruct (components gmm); [congruence | cbn; lia]. }
  split.
  - assert (Hle : Forall (fun p => p <= S)
                         (map (fun c => exp (weighted_log_density x c)) (components gmm))).
    { apply Rsum_le_total, Forall_map, Forall_forall. intros c _. left. apply exp_pos. }
    apply Forall_map in Hle. eapply Forall_impl; [exact Hle |].
    intros c Hc. cbn beta in *. rewrite <- (ln_exp (weighted_log_density x c)).
    destruct Hc as [Hlt | Heq]; [left; apply ln_increasing; [apply exp_pos | assumption] |].
    rewrite Heq. lra.
  - intros m Hm.
    assert (Hle : S <= INR (n_components gmm) * exp m).
    { unfold S, n_components. rewrite <- (Rsum_map_const (exp m) (components gmm)).
      apply Rsum_le_compat. eapply Forall_impl; [exact Hm |].
      intros c [Hlt | Heq]; [left; apply exp_increasing; assumption | rewrite Heq; lra]. }
    pose proof (exp_pos m) as Hem.
    assert (Hln : ln S <= ln (INR (n_components gmm) * exp m)).
    { destruct Hle as [Hlt | Heq]; [left; apply ln_increasing; assumption | rewrite Heq; lra]. }
    rewrite ln_mult, ln_exp in Hln by assumption. lra.
Qed.

(** X7. The total log-likelihood of every observation dominates each entry
    of its row of the per-component matrix and exceeds the largest entry
    by at most [ln K]. *)
Theorem compute_total_loglikelihood_bounds (gmm : GaussianMixture) (X : matrix) :
  components gmm <> [] ->
  Forall (fun c => mvn_check (mean c) (cov c) = Ok tt) (components gmm) ->
  Forall (fun c => 0 < weight c) (components gmm) ->
  exists log_probs totals,
    compute_component_loglikelihoods gmm X = Ok (map (map Fin) log_probs) /\
    compute_total_loglikelihood gmm X = Ok (map Fin totals) /\
    Forall2 (fun row t =>
               Forall (fun a => a <= t) row /\
               forall m, Forall (fun a => a <= m) row ->
                         t <= m + ln (INR (n_components gmm)))
            log_probs totals.
Proof.
  intros Hne Hok Hw.
  exists (map (fun x => map (weighted_log_density x) (components gmm)) X),
         (map (mixture_loglikelihood gmm) X).
  split; [| split].
  - rewrite (compute_component_loglikelihoods_Ok gmm X Hok). f_equal.
    unfold loglikelihood_matrix. rewrite map_map. apply map_ext. intros x.
    apply loglikelihood_row_real. assumption.
  - apply total_loglikelihood_real; assumption.
  - apply Forall2_fmap, Forall_Forall2_diag, Forall_forall. intros x _.
    destruct (mixture_loglikelihood_bounds gmm x Hne) as [Hlo Hup]. split.
    + apply Forall_map. exact Hlo.
    + intros m Hm. apply Hup. apply Forall_map in Hm. exact Hm.
Qed.

(** The posteriors of an observation are positive, at most 1, and add
    up to 1. *)
Lemma posterior_distribution (gmm : GaussianMixture) (x : list R) :
  components gmm <> [] ->
  Forall (fun c => 0 < posterior gmm x c <= 1) (components gmm) /\
  Rsum (map (posterior gmm x) (components gmm)) = 1.
Proof.
  intros Hne. destruct (mixture_loglikelihood_bounds gmm x Hne) as [Hlo _]. split.
  - eapply Forall_impl; [exact Hlo |]. intros c Hc. unfold posterior. split.
    + apply exp_pos.
    + rewrite <- exp_0. destruct (Req_dec (weighted_log_density x c - mixture_loglikelihood gmm x) 0)
        as [-> | Hnz]; [lra |]. left. apply exp_increasing. lra.
  - unfold posterior, mixture_loglikelihood.
    set (S := Rsum (map (fun c => exp (weighted_log_density x c)) (components gmm))).
    assert (HS : 0 < S) by (apply exp_sum_pos; assumption).
    rewrite (map_ext _ (fun c => / S * exp (weighted_log_density x c))).
    + rewrite (Rsum_map_scale_l (/ S) (fun c => exp (weighted_log_density x c))).
      fold S. field. lra.
    + intros c. unfold Rminus. rewrite exp_plus, exp_Ropp, exp_ln by assumption. ring.
Qed.


End DecomposerNumbers.

(** ** Contributions: comparison with the grand total, batches, relabelling *)

Lemma Rsum_swap {A C : Type} (g : A -> C -> R) (X : list A) (cs : list C) :
  Rsum (map (fun c => Rsum (map (fun x => g x c) X)) cs)
  = Rsum (map (fun x => Rsum (map (fun c => g x c) cs)) X).
Proof.
  induction X as [| x X IH].
  - cbn [map]. change (Rsum []) with 0. rewrite Rsum_map_const. cbn. ring.
  - cbn [map]. change (Rsum (?a :: ?l)) with (a + Rsum l). rewrite <- IH.
    clear IH. induction cs as [| c cs IHc].
    + cbn. ring.
    + cbn [map]. change (Rsum (?a :: ?l)) with (a + Rsum l).
      rewrite IHc. change (Rsum (?a :: ?l)) with (a + Rsum l). ring.
Qed.

Lemma np_sum_app (l1 l2 : list float) :
  np_sum (l1 ++ l2) = fadd (np_sum l1) (np_sum l2).
Proof.
  induction l1 as [| a l1 IH].
  - cbn [app]. change (np_sum []) with (Fin 0). symmetry. apply fadd_0_l.
  - cbn [app]. change (np_sum (?a :: ?l)) with (fadd a (np_sum l)).
    rewrite IH. symmetry. apply fadd_assoc.
Qed.

Section ContributionsNumbers.
Context `{B : Backend}.

(** The posterior-weighted log-densities of an observation add up to at
    most its mixture log-likelihood. *)
Lemma weighted_contribution_le (gmm : GaussianMixture) (x : list R) :
  components gmm <> [] ->
  Rsum (map (fun c => posterior gmm x c * weighted_log_density x c) (components gmm))
  <= mixture_loglikelihood gmm x.
Proof.
  intros Hne.
  destruct (mixture_loglikelihood_bounds gmm x Hne) as [Hlo _].
  destruct (posterior_distribution gmm x Hne) as [Hr Hs].
  set (L := mixture_loglikelihood gmm x) in *.
  apply Rle_trans with (Rsum (map (fun c => posterior gmm x c * L) (components gmm))).
  - apply Rsum_le_compat. pose proof (conj Hlo Hr) as H. apply Forall_and in H.
    eapply Forall_impl; [exact H |]. intros c [H1 [H2 _]]. cbn beta in *. nra.
  - rewrite (map_ext _ (fun c => L * posterior gmm x c)) by (intros; ring).
    rewrite (Rsum_map_scale_l L (posterior gmm x)), Hs. lra.
Qed.

Lemma contributions_real (gmm : GaussianMixture) (X : matrix) :
  components gmm <> [] ->
  Forall (fun c => mvn_check (mean c) (cov c) = Ok tt) (components gmm) ->
  Forall (fun c => 0 < weight c) (components gmm) ->
  compute_component_contributions gmm X
  = Ok (map Fin (map (fun c => Rsum (map (fun x => posterior gmm x c
                                                  * weighted_log_density x c) X))
                     (components gmm)),
        Fin (Rsum (map (mixture_loglikelihood gmm) X))).
Proof.
  intros Hne Hok Hw. rewrite (compute_component_contributions_Ok gmm X Hne Hok).
  do 2 f_equal.
  - rewrite map_map. apply map_ext_Forall. eapply Forall_impl; [exact Hw |].
    intros c Hc. cbn beta.
    rewrite <- np_sum_Fin, map_map. f_equal. apply map_ext. intros x.
    rewrite (responsibility_real gmm x c Hne Hw Hc), (component_loglikelihood_real x c Hc).
    reflexivity.
  - rewrite <- np_sum_Fin. f_equal. unfold loglikelihood_matrix. rewrite !map_map.
    apply map_ext. intros x. apply log_sum_of_exp_real; assumption.
Qed.

(** X9. The per-component contributions never add up to more than the
    grand total, and with a single component they are equal to it. *)
Theorem contributions_sum_le_total (gmm : GaussianMixture) (X : matrix) :
  components gmm <> [] ->
  Forall (fun c => mvn_check (mean c) (cov c) = Ok tt) (components gmm) ->
  Forall (fun c => 0 < weight c) (components gmm) ->
  exists comp_ll total_ll,
    compute_component_contributions gmm X = Ok (map Fin comp_ll, Fin total_ll) /\
    Rsum comp_ll <= total_ll /\
    (n_components gmm = 1%nat -> Rsum comp_ll = total_ll).
Proof.
  intros Hne Hok Hw. eexists _, _. split; [apply contributions_real; assumption |].
  rewrite (Rsum_swap (fun x c => posterior gmm x c * weighted_log_density x c)).
  split.
  - apply Rsum_le_compat, Forall_forall. intros x _. cbn beta.
    apply weighted_contribution_le. assumption.
  - intros HK. f_equal. apply map_ext. intros x.
    unfold n_components in HK. unfold posterior, mixture_loglikelihood.
    destruct (components gmm) as [| c [| c' cs]]; try discriminate.
    cbn [map]. unfold Rsum. cbn [foldr]. rewrite !Rplus_0_r, ln_exp.
    replace (weighted_log_density x c - weighted_log_density x c) with 0 by ring.
    rewrite exp_0. ring.
Qed.

(** X10. The contributions and the grand total of a data set cut in two
    batches are the sums of those of the batches. *)
Theorem contributions_additive (gmm : GaussianMixture) (X1 X2 : matrix) :
  components gmm <> [] ->
  Forall (fun c => mvn_check (mean c) (cov c) = Ok tt) (components gmm) ->
  exists comp1 total1 comp2 total2,
    compute_component_contributions gmm X1 = Ok (comp1, total1) /\
    compute_component_contributions gmm X2 = Ok (comp2, total2) /\
    compute_component_contributions gmm (X1 ++ X2)
    = Ok (zip_with fadd comp1 comp2, fadd total1 total2).
Proof.
  intros Hne Hok. eexists _, _, _, _.
  split; [apply compute_component_contributions_Ok; assumption |].
  split; [apply compute_component_contributions_Ok; assumption |].
  rewrite (compute_component_contributions_Ok gmm (X1 ++ X2) Hne Hok). do 2 f_equal.
  - rewrite zip_with_map_map. apply map_ext. intros c.
    rewrite map_app. apply np_sum_app.
  - unfold loglikelihood_matrix. rewrite !map_app. apply np_sum_app.
Qed.

(** X11. The total log-likelihood does not depend on the order in which the
    components are stored. *)
Theorem compute_total_loglikelihood_relabel (gmm gmm' : GaussianMixture) (X : matrix) :
  Permutation (components gmm) (components gmm') ->
  Forall (fun c => mvn_check (mean c) (cov c) = Ok tt) (components gmm) ->
  compute_total_loglikelihood gmm X = compute_total_loglikelihood gmm' X.
Proof.
  intros Hp Hok.
  assert (Hok' : Forall (fun c => mvn_check (mean c) (cov c) = Ok tt) (components gmm')).
  { apply List.Forall_forall. intros c Hc.
    apply (proj1 (List.Forall_forall _ _) Hok c).
    apply (Permutation_in c (Permutation_sym Hp) Hc). }
  unfold compute_total_loglikelihood.
  rewrite (compute_component_loglikelihoods_Ok gmm X Hok).
  rewrite (compute_component_loglikelihoods_Ok gmm' X Hok').
  cbn [mbind result_bind].
  destruct (components gmm) as [| c cs] eqn:Hcs.
  - apply Permutation_nil_l in Hp. unfold loglikelihood_matrix. rewrite Hcs, Hp.
    reflexivity.
  - assert (Hne : components gmm <> []) by (rewrite Hcs; discriminate).
    assert (Hne' : components gmm' <> []).
    { intros H. rewrite H in Hp. apply Permutation_nil_r in Hp. discriminate. }
    rewrite (logsumexp_axis1_exact _ (loglikelihood_matrix_rows_nonempty gmm X Hne)).
    rewrite (logsumexp_axis1_exact _ (loglikelihood_matrix_rows_nonempty gmm' X Hne')).
    f_equal. unfold loglikelihood_matrix. rewrite !map_map, Hcs.
    apply map_ext. intros x. unfold log_sum_of_exp. f_equal.
    apply np_sum_Permutation. apply Permutation_map, Permutation_map. assumption.
Qed.

End ContributionsNumbers.

(** ** Model selector: what every returned table looks like *)

Section SweepInvariants.
Context `{B : Backend}.

Lemma sweep_step_inv (data : matrix) (cfg : ModelConfig) (st st' : sweep_state) (n : nat) :
  sweep_step data cfg st n = Ok st' ->
  exists a b e t,
    st' = {| aic_values := aic_values st ++ [a];
             bic_values := bic_values st ++ [b];
             n_components_seen := n_components_seen st ++ [n];
             entropy_values := entropy_values st ++ [e];
             loglikely_hoods := loglikely_hoods st ++ [t] |}.
Proof.
  unfold sweep_step. intros H.
  destruct (gm_fit cfg n data) as [model | ?]; cbn [mbind result_bind] in H; [| discriminate].
  destruct (predict_proba model data) as [pred_x | ?];
    cbn [mbind result_bind] in H; [| discriminate].
  destruct (compute_component_contributions model data) as [[comp total_ll] | ?];
    cbn [mbind result_bind] in H; [| discriminate].
  destruct (compute_gmm_entropy model) as [model_entropy | ?];
    cbn [mbind result_bind] in H; [| discriminate].
  unfold mret, result_ret in H. injection H as <-. eexists _, _, _, _. reflexivity.
Qed.

(** The five accumulators grow together, one entry per candidate. *)
Lemma sweep_loop_inv (data : matrix) (cfg : ModelConfig) (l : list nat)
  (st st' : sweep_state) :
  foldM (sweep_step data cfg) st l = Ok st' ->
  length (aic_values st') = (length (aic_values st) + length l)%nat /\
  length (bic_values st') = (length (bic_values st) + length l)%nat /\
  n_components_seen st' = n_components_seen st ++ l /\
  length (entropy_values st') = (length (entropy_values st) + length l)%nat /\
  length (loglikely_hoods st') = (length (loglikely_hoods st) + length l)%nat.
Proof.
  revert st. induction l as [| n l IH]; intros st H.
  - cbn in H. injection H as <-. rewrite app_nil_r. cbn. repeat split; lia.
  - cbn [foldM] in H.
    destruct (sweep_step data cfg st n) as [st1 |] eqn:Hstep;
      cbn [mbind result_bind] in H; [| discriminate].
    destruct (sweep_step_inv _ _ _ _ _ Hstep) as (a & b & e & t & ->).
    destruct (IH _ H) as (H1 & H2 & H3 & H4 & H5).
    cbn [aic_values bic_values n_components_seen entropy_values loglikely_hoods] in *.
    rewrite length_app in H1, H2, H4, H5. cbn [length] in *.
    rewrite <- app_assoc in H3. repeat split; try lia. exact H3.
Qed.

Lemma sweep_columns (data : matrix) (cfg : ModelConfig)
  (results : list (string * list value)) :
  finetune_model data cfg = Ok results ->
  map fst results = ["aic"; "bic"; "n_components"; "log-likelihood"; "entropy"]%string /\
  Forall (fun kc => length kc.2 = 9%nat) results /\
  results !! 2%nat
  = Some ("n_components"%string,
          map (fun n => VInt (Z.of_nat n)) [1; 2; 3; 4; 5; 6; 7; 8; 9]%nat).
Proof.
  unfold finetune_model. intros H.
  destruct (foldM (sweep_step data cfg) sweep_init n_profiles) as [st |] eqn:Hloop;
    cbn [mbind result_bind] in H; [| discriminate].
  unfold mret, result_ret in H. injection H as <-.
  destruct (sweep_loop_inv _ _ _ _ _ Hloop) as (H1 & H2 & H3 & H4 & H5).
  cbn in H1, H2, H3, H4, H5.
  split; [reflexivity |]. split.
  - repeat constructor; cbn [snd]; rewrite length_map; try assumption.
    rewrite H3. reflexivity.
  - cbn. rewrite H3. reflexivity.
Qed.

(** X12. Whatever the collaborators do, a table returned by the sweep has
    the five keys in their order and nine entries in every column, the
    [n_components] column being 1, 2, ..., 9: the data frame built from
    it has nine rows. *)
Theorem finetune_model_columns (data : matrix) (cfg : ModelConfig)
  (results : list (string * list value)) :
  finetune_model data cfg = Ok results ->
  map fst results = ["aic"; "bic"; "n_components"; "log-likelihood"; "entropy"]%string /\
  Forall (fun kc => length kc.2 = 9%nat) results /\
  results !! 2%nat
  = Some ("n_components"%string,
          map (fun n => VInt (Z.of_nat n)) [1; 2; 3; 4; 5; 6; 7; 8; 9]%nat) /\
  length (records results) = 9%nat.
Proof.
  intros H. destruct (sweep_columns data cfg results H) as (Hkeys & Hlen & Hcol).
  repeat split; try assumption.
  unfold records. rewrite length_map, length_seq.
  destruct results as [| kc results]; [discriminate |].
  inversion Hlen; subst. assumption.
Qed.

(** The outcome of an iteration does not depend on the accumulators. *)
Lemma sweep_step_outcome (data : matrix) (cfg : ModelConfig) (st1 st2 : sweep_state)
  (n : nat) :
  (forall e, sweep_step data cfg st1 n = Raise e -> sweep_step data cfg st2 n = Raise e) /\
  ((exists st', sweep_step data cfg st1 n = Ok st') ->
   exists st', sweep_step data cfg st2 n = Ok st').
Proof.
  unfold sweep_step.
  destruct (gm_fit cfg n data) as [model | ?]; cbn [mbind result_bind];
    [| split; [auto | intros [? ?]; discriminate]].
  destruct (predict_proba model data) as [pred_x | ?]; cbn [mbind result_bind];
    [| split; [auto | intros [? ?]; discriminate]].
  destruct (compute_component_contributions model data) as [[comp total_ll] | ?];
    cbn [mbind result_bind]; [| split; [auto | intros [? ?]; discriminate]].
  destruct (compute_gmm_entropy model) as [model_entropy | ?]; cbn [mbind result_bind];
    [| split; [auto | intros [? ?]; discriminate]].
  split; [intros e He; discriminate | intros _; eexists; reflexivity].
Qed.

(** The first iteration that raises decides the outcome of the loop. *)
Lemma sweep_first_failure (data : matrix) (cfg : ModelConfig) (K : nat)
  (e : exception) :
  (1 <= K <= 9)%nat ->
  (forall n, (1 <= n < K)%nat -> exists st', sweep_step data cfg sweep_init n = Ok st') ->
  sweep_step data cfg sweep_init K = Raise e ->
  finetune_model data cfg = Raise e.
Proof.
  intros HK Hbefore Hraise. unfold finetune_model, n_profiles.
  rewrite (seq_split_at 1 9 (K - 1)) by lia.
  replace (1 + (K - 1))%nat with K by lia.
  rewrite foldM_app.
  assert (Hpre : forall l st, Forall (fun n => (1 <= n < K)%nat) l ->
                   exists st', foldM (sweep_step data cfg) st l = Ok st').
  { induction l as [| n l IH]; intros st Hl; [eexists; reflexivity |].
    inversion Hl as [| ? ? Hn Hl']; subst.
    destruct (proj2 (sweep_step_outcome data cfg sweep_init st n) (Hbefore n Hn))
      as [st1 Hst1].
    cbn [foldM]. rewrite Hst1. cbn [mbind result_bind]. apply IH. assumption. }
  destruct (Hpre (seq 1 (K - 1)) sweep_init) as [st' ->].
  - apply Forall_forall. intros n Hn. apply list_elem_of_In, in_seq in Hn. lia.
  - cbn [mbind result_bind foldM].
    rewrite (proj1 (sweep_step_outcome data cfg sweep_init st' K) e Hraise). reflexivity.
Qed.

(** X13. The sweep raises the exception of the first iteration that raises,
    whichever of its steps raised it: the fit, [predict_proba], the
    contributions or the entropy. *)
Theorem finetune_model_first_failure (data : matrix) (cfg : ModelConfig) (K : nat)
  (e : exception) :
  (1 <= K <= 9)%nat ->
  (forall n, (1 <= n < K)%nat -> exists st', sweep_step data cfg sweep_init n = Ok st') ->
  sweep_step data cfg sweep_init K = Raise e ->
  finetune_model data cfg = Raise e.
Proof. exact (sweep_first_failure data cfg K e). Qed.

End SweepInvariants.

(** ** Finalizer: the label is the most probable component *)

(** [argmax_from] returns the running best or a later, strictly larger
    entry; in both cases a maximum of the row, and its first
    occurrence. *)
Lemma argmax_from_spec (rs : list R) (best_i : nat) (b : R) (i : nat) :
  let k := argmax_from best_i (Fin b) i (map Fin rs) in
  (k = best_i /\ Forall (fun r => r <= b) rs) \/
  (exists j r, k = (i + j)%nat /\ rs !! j = Some r /\ b < r /\
               Forall (fun r' => r' <= r) rs /\
               forall j' r', (j' < j)%nat -> rs !! j' = Some r' -> r' < r).
Proof.
  revert best_i b i. induction rs as [| x rs IH]; intros best_i b i; cbn zeta.
  - left. split; [reflexivity | constructor].
  - cbn [map argmax_from beats flt].
    destruct (Rlt_dec b x) as [Hlt | Hge].
    + right. destruct (IH i x (S i)) as [[Hk Hall] | (j & r & Hk & Hj & Hxr & Hall & Hfirst)].
      * exists 0%nat, x. rewrite Nat.add_0_r. repeat split; try assumption.
        -- constructor; [lra | assumption].
        -- intros j' r' Hj'. lia.
      * exists (S j), r. repeat split.
        -- rewrite Hk. lia.
        -- exact Hj.
        -- lra.
        -- constructor; [lra | assumption].
        -- intros [| j'] r' Hj' Hr'; cbn in Hr'.
           ++ injection Hr' as <-. assumption.
           ++ apply (Hfirst j' r'); [lia | assumption].
    + destruct (IH best_i b (S i)) as [[Hk Hall] | (j & r & Hk & Hj & Hbr & Hall & Hfirst)].
      * left. split; [assumption |]. constructor; [lra | assumption].
      * right. exists (S j), r. repeat split.
        -- rewrite Hk. lia.
        -- exact Hj.
        -- assumption.
        -- constructor; [lra | assumption].
        -- intros [| j'] r' Hj' Hr'; cbn in Hr'.
           ++ injection Hr' as <-. lra.
           ++ apply (Hfirst j' r'); [lia | assumption].
Qed.

Lemma argmax_index_spec (rs : list R) :
  rs <> [] ->
  exists r, rs !! argmax_index (map Fin rs) = Some r /\
            Forall (fun r' => r' <= r) rs /\
            forall j r', (j < argmax_index (map Fin rs))%nat -> rs !! j = Some r' -> r' < r.
Proof.
  destruct rs as [| b rs]; [congruence |]. intros _. cbn [map argmax_index].
  destruct (argmax_from_spec rs 0 b 1) as [[Hk Hall] | (j & r & Hk & Hj & Hbr & Hall & Hfirst)];
    cbn zeta in *; rewrite Hk.
  - exists b. split; [reflexivity |]. split; [constructor; [lra | assumption] |].
    intros j r' Hj. lia.
  - exists r. split; [exact Hj |]. split; [constructor; [lra | assumption] |].
    intros [| j'] r' Hj' Hr'; cbn in Hr'.
    + injection Hr' as <-. assumption.
    + apply (Hfirst j' r'); [lia | assumption].
Qed.

Section FinalizerMAP.
Context `{B : Backend}.

Lemma weighted_density_order (x : list R) (c c' : component) :
  0 < weight c -> 0 < weight c' ->
  (weighted_log_density x c' <= weighted_log_density x c ->
   weight c' * exp (log_density x (mean c') (cov c'))
   <= weight c * exp (log_density x (mean c) (cov c))) /\
  (weighted_log_density x c' < weighted_log_density x c ->
   weight c' * exp (log_density x (mean c') (cov c'))
   < weight c * exp (log_density x (mean c) (cov c))).
Proof.
  intros Hc Hc'.
  assert (He : forall d, 0 < weight d ->
             exp (weighted_log_density x d)
             = weight d * exp (log_density x (mean d) (cov d))).
  { intros d Hd. unfold weighted_log_density. rewrite exp_plus, exp_ln by assumption.
    reflexivity. }
  rewrite <- (He c Hc), <- (He c' Hc'). split.
  - intros [Hlt | Heq]; [left; apply exp_increasing; assumption | rewrite Heq; lra].
  - apply exp_increasing.
Qed.

(** X14. The label of an observation is the component of largest weighted
    density [w_k f_k(x)], the lowest index winning a tie. *)
Theorem build_model_and_fit_most_probable (lpa_data : matrix) (n : nat)
  (cfg : ModelConfig) (final_model : GaussianMixture) :
  gm_fit cfg n lpa_data = Ok final_model ->
  components final_model <> [] ->
  (Z.of_nat (n_components final_model) <= 2 ^ 31)%Z ->
  Forall (fun c => 0 < weight c) (components final_model) ->
  exists labels,
    build_model_and_fit lpa_data n cfg = Ok (labels, final_model) /\
    Forall2 (fun x label =>
               exists c,
                 components final_model !! Z.to_nat label = Some c /\
                 (forall c', In c' (components final_model) ->
                    weight c' * exp (log_density x (mean c') (cov c'))
                    <= weight c * exp (log_density x (mean c) (cov c))) /\
                 (forall j c', (j < Z.to_nat label)%nat ->
                    components final_model !! j = Some c' ->
                    weight c' * exp (log_density x (mean c') (cov c'))
                    < weight c * exp (log_density x (mean c) (cov c))))
            lpa_data labels.
Proof.
  intros Hfit Hne HK Hw.
  set (cs := components final_model) in *.
  set (k := fun x => argmax_index (map (component_loglikelihood x) cs)).
  assert (Hlen : forall x, (k x < n_components final_model)%nat).
  { intros x. unfold k, n_components. fold cs.
    rewrite <- (length_map (component_loglikelihood x) cs).
    apply argmax_index_bound. destruct cs; [congruence | discriminate]. }
  exists (map (fun x => Z.of_nat (k x)) lpa_data). split.
  - unfold build_model_and_fit. rewrite Hfit. cbn [mbind result_bind].
    rewrite (predict_Ok _ _ Hne). cbn [mbind result_bind mret result_ret].
    do 2 f_equal. rewrite map_map. apply map_ext. intros x. fold cs. fold (k x).
    apply astype_int32_small. specialize (Hlen x). lia.
  - apply Forall2_fmap_r, Forall_Forall2_diag, Forall_forall. intros x _.
    unfold compose. cbn beta. rewrite Nat2Z.id. unfold k.
    rewrite (loglikelihood_row_real final_model x Hw). fold cs.
    set (rs := map (weighted_log_density x) cs).
    assert (Hrs : rs <> []) by (subst rs; destruct cs; [congruence | discriminate]).
    destruct (argmax_index_spec rs Hrs) as (r & Hr & Hmax & Hfirst).
    assert (Hlk : forall j, rs !! j = weighted_log_density x <$> (cs !! j))
      by (intros j; apply lookup_map).
    rewrite Hlk in Hr.
    destruct (cs !! argmax_index (map Fin rs)) as [c |] eqn:Hc;
      cbn in Hr; [| discriminate].
    injection Hr as <-.
    assert (Hcpos : 0 < weight c).
    { apply (proj1 (List.Forall_forall _ _) Hw c).
      apply list_elem_of_In. eapply list_elem_of_lookup_2. exact Hc. }
    exists c. split; [reflexivity |]. split.
    + intros c' Hin.
      pose proof (proj1 (List.Forall_forall _ _) Hw c' Hin) as Hc'pos.
      apply (weighted_density_order x c c' Hcpos Hc'pos).
      apply (proj1 (List.Forall_forall _ _) Hmax (weighted_log_density x c')).
      unfold rs. apply in_map. assumption.
    + intros j c' Hj Hc'.
      assert (Hc'pos : 0 < weight c').
      { apply (proj1 (List.Forall_forall _ _) Hw c').
        apply list_elem_of_In. eapply list_elem_of_lookup_2. exact Hc'. }
      apply (weighted_density_order x c c' Hcpos Hc'pos).
      apply (Hfirst j); [assumption |]. rewrite Hlk, Hc'. reflexivity.
Qed.

End FinalizerMAP.

(** ** The further properties on the univariate instance *)

Lemma fit_transform_idempotent_witness :
  exists Y, fit_transform raw_points = Ok Y /\ fit_transform Y = Ok Y.
Proof.
  assert (H : exists Y, fit_transform raw_points = Ok Y).
  { eexists. apply (fit_transform_Ok raw_points 2); [discriminate | lia | repeat constructor]. }
  destruct H as [Y HY]. exists Y. split; [exact HY |].
  apply (fit_transform_idempotent raw_points Y 2);
    [discriminate | lia | repeat constructor | exact HY].
Defined.

Lemma fit_transform_units_witness :
  fit_transform (map (imap (fun (j : nat) x => 2 * x + 1)) raw_points)
  = fit_transform raw_points.
Proof.
  apply (fit_transform_units (fun _ => 2) (fun _ => 1) raw_points 2);
    [discriminate | lia | repeat constructor | intros j; lra].
Defined.

Lemma compute_gmm_entropy_raises_witness :
  compute_gmm_entropy ragged_model = Raise ValueError.
Proof.
  apply (proj2 (compute_gmm_entropy_raises ragged_model ValueError)).
  split; [reflexivity |]. apply Exists_cons_hd. reflexivity.
Defined.

Lemma grid_model_swapped_Permutation :
  Permutation (components (grid_model 2)) (components grid_model_swapped).
Proof. apply Permutation_rev. Qed.

Lemma compute_gmm_entropy_relabel_witness :
  compute_gmm_entropy (grid_model 2) = compute_gmm_entropy grid_model_swapped.
Proof.
  apply (compute_gmm_entropy_relabel (grid_model 2) grid_model_swapped 1).
  - exact grid_model_swapped_Permutation.
  - repeat constructor.
Defined.

Lemma grid_model_two_entropy_hyps :
  Forall (fun c => 0 <= weight c /\ is_square (cov c) = true /\ 0 < det_value (cov c))
         (components (grid_model 2)).
Proof.
  pose proof (conj (grid_weights_pos 2 ltac:(lia)) (grid_model_square 2)) as H.
  apply Forall_and in H. eapply Forall_impl; [exact H |].
  intros c (H1 & H2 & H3). split; [lra |]. split; [assumption | lra].
Qed.

Lemma compute_gmm_entropy_bounds_witness :
  exists h, compute_gmm_entropy (grid_model 2) = Ok (Fin h).
Proof.
  destruct (compute_gmm_entropy_bounds (grid_model 2)) as (h & Hh & _).
  - apply grid_model_nonempty. lia.
  - exact grid_weights_sum_two.
  - exact grid_model_two_entropy_hyps.
  - exists h. exact Hh.
Defined.

Lemma compute_component_loglikelihoods_raises_witness :
  @compute_component_loglikelihoods univariate_backend singular_model two_points
  = Raise LinAlgError.
Proof.
  apply (proj2 (@compute_component_loglikelihoods_raises univariate_backend
                  singular_model two_points LinAlgError)).
  eexists [], _, _. split; [reflexivity |]. split; [constructor |].
  cbn. rewrite Rsign_zero. reflexivity.
Defined.

Lemma compute_total_loglikelihood_bounds_witness :
  exists totals,
    @compute_total_loglikelihood univariate_backend (grid_model 2) two_points
    = Ok (map Fin totals).
Proof.
  destruct (@compute_total_loglikelihood_bounds univariate_backend (grid_model 2) two_points)
    as (log_probs & totals & _ & H & _).
  - apply grid_model_nonempty. lia.
  - apply grid_model_accepted.
  - apply grid_weights_pos. lia.
  - exists totals. exact H.
Defined.


Lemma contributions_sum_le_total_witness :
  exists comp_ll total_ll,
    @compute_component_contributions univariate_backend (grid_model 2) two_points
    = Ok (map Fin comp_ll, Fin total_ll) /\
    Rsum comp_ll <= total_ll.
Proof.
  destruct (@contributions_sum_le_total univariate_backend (grid_model 2) two_points)
    as (comp & total & H & Hle & _).
  - apply grid_model_nonempty. lia.
  - apply grid_model_accepted.
  - apply grid_weights_pos. lia.
  - exists comp, total. split; assumption.
Defined.

Lemma contributions_additive_witness :
  exists comp1 total1 comp2 total2,
    @compute_component_contributions univariate_backend (grid_model 2) two_points
    = Ok (comp1, total1) /\
    @compute_component_contributions univariate_backend (grid_model 2) one_point
    = Ok (comp2, total2) /\
    @compute_component_contributions univariate_backend (grid_model 2)
       (two_points ++ one_point)
    = Ok (zip_with fadd comp1 comp2, fadd total1 total2).
Proof.
  apply (@contributions_additive univariate_backend (grid_model 2) two_points one_point).
  - apply grid_model_nonempty. lia.
  - apply grid_model_accepted.
Defined.

Lemma compute_total_loglikelihood_relabel_witness :
  @compute_total_loglikelihood univariate_backend (grid_model 2) two_points
  = @compute_total_loglikelihood univariate_backend grid_model_swapped two_points.
Proof.
  apply (@compute_total_loglikelihood_relabel univariate_backend).
  - exact grid_model_swapped_Permutation.
  - apply grid_model_accepted.
Defined.

Lemma finetune_model_columns_witness :
  exists results,
    @finetune_model univariate_backend nine_points default_ModelConfig = Ok results /\
    length (records results) = 9%nat.
Proof.
  assert (H : exists results,
             @finetune_model univariate_backend nine_points default_ModelConfig
             = Ok results).
  { unfold finetune_model.
    rewrite (@sweep_loop_Ok univariate_backend nine_points default_ModelConfig grid_model).
    - eexists. reflexivity.
    - apply Forall_forall. intros n Hn. apply list_elem_of_In, in_seq in Hn. split.
      + apply grid_fit_Ok. cbn. lia.
      + apply grid_model_fitted. lia. }
  destruct H as [results Hres]. exists results. split; [exact Hres |].
  apply (@finetune_model_columns univariate_backend nine_points default_ModelConfig results
           Hres).
Defined.

Lemma finetune_model_first_failure_witness :
  @finetune_model collapsing_backend two_points default_ModelConfig = Raise LinAlgError.
Proof.
  apply (@finetune_model_first_failure collapsing_backend two_points default_ModelConfig 2).
  - lia.
  - intros n Hn. assert (n = 1%nat) as -> by lia. eexists.
    apply (@sweep_step_Ok collapsing_backend _ _ _ _ (grid_model 1)).
    + reflexivity.
    + exact (grid_model_fitted 1 ltac:(lia)).
  - unfold sweep_step. cbn [gm_fit collapsing_backend collapsing_fit Nat.ltb Nat.leb].
    cbn [mbind result_bind].
    rewrite (@predict_proba_Ok collapsing_backend singular_model two_points) by discriminate.
    cbn [mbind result_bind]. unfold compute_component_contributions.
    rewrite (@compute_component_loglikelihoods_rejected collapsing_backend singular_model
               two_points [] _ _ LinAlgError eq_refl).
    + reflexivity.
    + constructor.
    + cbn. rewrite Rsign_zero. reflexivity.
Defined.

Lemma build_model_and_fit_most_probable_witness :
  exists labels,
    @build_model_and_fit univariate_backend two_points 2 default_ModelConfig
    = Ok (labels, grid_model 2).
Proof.
  destruct (@build_model_and_fit_most_probable univariate_backend two_points 2
              default_ModelConfig (grid_model 2))
    as (labels & H & _).
  - apply grid_fit_Ok. cbn. lia.
  - apply grid_model_nonempty. lia.
  - cbn. lia.
  - apply grid_weights_pos. lia.
  - exists labels. exact H.
Defined.

(** ** Module level: column selection and the frame handed to the fits *)

Lemma mapM_getitem_Ok {A : Type} (row : list A) (idx : list nat) (d : A) :
  Forall (fun j => (j < length row)%nat) idx ->
  mapM (getitem row) idx = Ok (map (fun j => nth j row d) idx).
Proof.
  intros Hin. apply mapM_Ok. eapply Forall_impl; [exact Hin |].
  intros j Hj. cbn beta in *. unfold getitem.
  destruct (lookup_lt_is_Some_2 row j Hj) as [x Hx]. rewrite Hx.
  f_equal. symmetry. apply nth_lookup_Some. assumption.
Qed.

Lemma iloc_columns_Ok (idx : list nat) (df : matrix) (W : nat) :
  Forall (fun row => length row = W) df ->
  Forall (fun j => (j < W)%nat) idx ->
  iloc_columns idx df = Ok (map (fun row => map (fun j => nth j row 0) idx) df).
Proof.
  intros Hrows Hidx. unfold iloc_columns. apply mapM_Ok.
  eapply Forall_impl; [exact Hrows |]. intros row Hrow. cbn beta in *.
  apply mapM_getitem_Ok. rewrite Hrow. assumption.
Qed.

Lemma iloc_columns_out_of_bounds (idx : list nat) (df : matrix) (W : nat) (row : list R) :
  Forall (fun row => length row = W) (row :: df) ->
  Exists (fun j => (W <= j)%nat) idx ->
  iloc_columns idx (row :: df) = Raise IndexError.
Proof.
  intros Hrows Hidx. inversion Hrows as [| ? ? Hrow _]; subst.
  unfold iloc_columns.
  change (mapM ?f (row :: df)) with (b ← f row; bs ← mapM f df; mret (b :: bs)).
  assert (Hr : mapM (getitem row) idx = Raise IndexError).
  { induction Hidx as [j l Hj | j l _ IH].
    - change (mapM ?f (j :: l)) with (b ← f j; bs ← mapM f l; mret (b :: bs)).
      assert (Hg : getitem row j = Raise IndexError).
      { unfold getitem. rewrite (proj2 (lookup_ge_None row j)) by lia. reflexivity. }
      rewrite Hg. reflexivity.
    - change (mapM ?f (j :: l)) with (b ← f j; bs ← mapM f l; mret (b :: bs)).
      destruct (getitem row j) as [x | e] eqn:Hx.
      + cbn [mbind result_bind]. rewrite IH. reflexivity.
      + unfold getitem in Hx. destruct (row !! j); [discriminate |].
        injection Hx as <-. reflexivity. }
  cbn beta. rewrite Hr. reflexivity.
Qed.

Lemma frame_values_of_matrix (m : matrix) :
  mapM (mapM cell_value) (map (map (fun x => VFloat (Fin x))) m) = Ok m.
Proof.
  induction m as [| row m IH]; [reflexivity |].
  cbn [map].
  change (mapM ?f (?a :: ?l)) with (b ← f a; bs ← mapM f l; mret (b :: bs)).
  assert (Hrow : mapM cell_value (map (fun x => VFloat (Fin x)) row) = Ok row).
  { clear. induction row as [| x row IH]; [reflexivity |].
    cbn [map].
    change (mapM ?f (?a :: ?l)) with (b ← f a; bs ← mapM f l; mret (b :: bs)).
    cbn [cell_value mbind result_bind]. rewrite IH. reflexivity. }
  rewrite Hrow. cbn [mbind result_bind]. rewrite IH. reflexivity.
Qed.

(** X15. The module-level frame.  On a raw table of N >= 1 rows and W
    columns: with W <= 26 the column selection raises [IndexError]; with
    W >= 27 the frame [lpa_data] has the columns ns, m, d, e and N rows,
    and the array the fits receive from it is exactly the standardized
    matrix of the raw columns 20, 22, 24 and 26. *)
Theorem module_lpa_data_frame (raw : matrix) (W : nat) :
  raw <> [] -> Forall (fun row => length row = W) raw ->
  ((W <= 26)%nat -> module_lpa_data raw = Raise IndexError) /\
  ((26 < W)%nat ->
   exists scaled,
     fit_transform (map (fun row => [nth 20 row 0; nth 22 row 0; nth 24 row 0; nth 26 row 0])
                        raw) = Ok scaled /\
     module_lpa_data raw
     = Ok {| frame_columns := ["ns"; "m"; "d"; "e"]%string;
             frame_rows := map (map (fun x => VFloat (Fin x))) scaled |} /\
     frame_values {| frame_columns := ["ns"; "m"; "d"; "e"]%string;
                     frame_rows := map (map (fun x => VFloat (Fin x))) scaled |}
     = Ok scaled /\
     length scaled = length raw /\
     Forall (fun row => length row = 4%nat) scaled).
Proof.
  intros Hne Hrows. split.
  - intros HW. unfold module_lpa_data. destruct raw as [| row raw]; [congruence |].
    rewrite (iloc_columns_out_of_bounds _ raw W row Hrows); [reflexivity |].
    do 3 apply Exists_cons_tl. apply Exists_cons_hd. lia.
  - intros HW.
    set (sel := map (fun row => [nth 20 row 0; nth 22 row 0; nth 24 row 0; nth 26 row 0]) raw).
    assert (Hsel : iloc_columns [20; 22; 24; 26]%nat raw = Ok sel).
    { rewrite (iloc_columns_Ok [20; 22; 24; 26]%nat raw W Hrows)
        by (repeat constructor; lia).
      reflexivity. }
    assert (Hsne : sel <> []) by (subst sel; destruct raw; [congruence | discriminate]).
    assert (Hsrows : Forall (fun row => length row = 4%nat) sel).
    { subst sel. apply Forall_map, Forall_forall. intros row _. reflexivity. }
    pose proof (fit_transform_Ok sel 4 Hsne ltac:(lia) Hsrows) as Hft.
    eexists. split; [exact Hft |]. split; [| split; [| split]].
    + unfold module_lpa_data. rewrite Hsel. cbn [mbind result_bind]. rewrite Hft.
      reflexivity.
    + unfold frame_values. cbn [frame_rows]. apply frame_values_of_matrix.
    + rewrite length_map. subst sel. apply length_map.
    + apply Forall_map, Forall_forall. intros row _. cbn beta.
      rewrite length_map. apply length_seq.
Qed.

(** ** Paths *)

Lemma string_app_inv_head (a x y : string) : (a ++ x = a ++ y)%string -> x = y.
Proof.
  induction a as [| c a IH]; cbn; intros H; [assumption |].
  injection H as H. apply IH. assumption.
Qed.

Lemma path_join_relative (a b : string) :
  starts_with_sep b = false -> path_join a b = (a ++ join_sep a ++ b)%string.
Proof.
  intros Hb. unfold path_join, join_sep. rewrite Hb.
  destruct (String.eqb a "" || ends_with_sep a)%bool; reflexivity.
Qed.

(** The two artefact paths are different files of the model folder. *)
Lemma saved_paths_distinct (folder prefix : string) :
  path_join folder ("model_" ++ prefix ++ ".npy")
  <> path_join folder ("model_" ++ prefix ++ ".joblib").
Proof.
  rewrite !path_join_relative by reflexivity. intros H.
  do 4 apply string_app_inv_head in H. discriminate.
Qed.

(** ** The pipeline and its store *)

Section PipelineProperties.
Context `{B : Backend} `{F : FileSystem}.

Lemma bind_lift_Ok {A C : Type} (a : A) (k : A -> io C) (w : world) :
  (lift (Ok a) ≫= k) w = k a w.
Proof. reflexivity. Qed.

Lemma bind_lift_Raise {A C : Type} (e : exception) (k : A -> io C) (w : world) :
  (lift (Raise e) ≫= k) w = (w, Failed (Computation e)).
Proof. reflexivity. Qed.

Lemma bind_get_lpa_data {C : Type} (k : DataFrame -> io C) (w : world) :
  (get_lpa_data ≫= k) w = k (lpa_data w) w.
Proof. reflexivity. Qed.

Lemma write_Done (path : string) (a : artefact) (w : world) (f : fs) :
  write_file (files w) path a = inr f ->
  write path a w = ({| files := f; lpa_data := lpa_data w |}, Done tt).
Proof. intros H. unfold write. rewrite H. reflexivity. Qed.

Lemma write_Failed (path : string) (a : artefact) (w : world) (e : os_error) :
  write_file (files w) path a = inl e ->
  write path a w = (w, Failed (OSError e)).
Proof. intros H. unfold write. rewrite H. reflexivity. Qed.

(** *** [_name_saved_files] *)

Lemma name_saved_files_present (sp : string) (cfg : ModelConfig) (w : world) :
  path_exists (files w) (model_folder sp cfg) = true ->
  _name_saved_files sp cfg w
  = (w, Done [ ("result"%string,
                path_join (model_folder sp cfg) (model_prefix cfg ++ ".npy"));
               ("model"%string,
                path_join (model_folder sp cfg) (model_prefix cfg ++ ".joblib")) ]).
Proof.
  intros Hex. unfold _name_saved_files, mbind, io_bind, os_path_exists.
  fold (model_prefix cfg). fold (model_folder sp cfg). rewrite Hex. reflexivity.
Qed.

Lemma name_saved_files_absent (sp : string) (cfg : ModelConfig) (w : world) :
  path_exists (files w) (model_folder sp cfg) = false ->
  _name_saved_files sp cfg w
  = match mkdir (files w) (model_folder sp cfg) with
    | inl e => (w, Failed (OSError e))
    | inr f =>
        ({| files := f; lpa_data := lpa_data w |},
         Done [ ("result"%string,
                 path_join (model_folder sp cfg) (model_prefix cfg ++ ".npy"));
                ("model"%string,
                 path_join (model_folder sp cfg) (model_prefix cfg ++ ".joblib")) ])
    end.
Proof.
  intros Hex. unfold _name_saved_files, mbind, io_bind, os_path_exists, os_mkdir.
  fold (model_prefix cfg). fold (model_folder sp cfg). rewrite Hex.
  destruct (mkdir (files w) (model_folder sp cfg)); reflexivity.
Qed.

(** X16. On a file system where a directory exists once [mkdir] has made it,
    [_name_saved_files] can be called again: when it returns, the model
    folder exists, the frame is untouched, the two paths it names are
    different, and a second call returns the same paths and leaves the
    store as it is (it does not try to make the folder again). *)
Theorem name_saved_files_idempotent (sp : string) (cfg : ModelConfig) (w w' : world)
  (d : list (string * string)) :
  (forall f p f', mkdir f p = inr f' -> path_exists f' p = true) ->
  _name_saved_files sp cfg w = (w', Done d) ->
  path_exists (files w') (model_folder sp cfg) = true /\
  lpa_data w' = lpa_data w /\
  (exists result_path model_path,
      d = [("result"%string, result_path); ("model"%string, model_path)] /\
      result_path <> model_path) /\
  _name_saved_files sp cfg w' = (w', Done d).
Proof.
  intros Hlaw Hrun.
  assert (Hex' : path_exists (files w') (model_folder sp cfg) = true
                 /\ lpa_data w' = lpa_data w
                 /\ d = [ ("result"%string,
                           path_join (model_folder sp cfg) (model_prefix cfg ++ ".npy"));
                          ("model"%string,
                           path_join (model_folder sp cfg) (model_prefix cfg ++ ".joblib")) ]).
  { destruct (path_exists (files w) (model_folder sp cfg)) eqn:Hex.
    - rewrite (name_saved_files_present sp cfg w Hex) in Hrun.
      injection Hrun as <- <-. repeat split. assumption.
    - rewrite (name_saved_files_absent sp cfg w Hex) in Hrun.
      destruct (mkdir (files w) (model_folder sp cfg)) as [e | f] eqn:Hmk; [discriminate |].
      injection Hrun as <- <-. repeat split. cbn [files]. apply (Hlaw _ _ _ Hmk). }
  destruct Hex' as (Hex' & Hdata & ->). repeat split; try assumption.
  - eexists _, _. split; [reflexivity |]. unfold model_prefix.
    apply saved_paths_distinct.
  - apply name_saved_files_present. assumption.
Qed.

(** *** [save_predict_labels] *)

Lemma frame_setitem_fresh (df : DataFrame) (key : string) (vals : list value) :
  frame_rows df <> [] -> index_of key (frame_columns df) = None ->
  frame_setitem df key vals
  = if Nat.eqb (length vals) (length (frame_rows df))
    then Ok {| frame_columns := frame_columns df ++ [key];
               frame_rows := zip_with (fun row v => row ++ [v]) (frame_rows df) vals |}
    else Raise ValueError.
Proof.
  intros Hne Hkey. unfold frame_setitem. rewrite Hkey.
  destruct (frame_rows df); [congruence | reflexivity].
Qed.

(** The two courses of [save_predict_labels]. *)
Lemma save_predict_labels_cases (pred_labels : list Z) (save_path : string) (w : world) :
  frame_rows (lpa_data w) <> [] ->
  index_of "cluster" (frame_columns (lpa_data w)) = None ->
  (length pred_labels <> length (frame_rows (lpa_data w)) ->
   save_predict_labels pred_labels save_path w = (w, Failed (Computation ValueError))) /\
  (length pred_labels = length (frame_rows (lpa_data w)) ->
   let labelled := labelled_frame (lpa_data w) pred_labels in
   length (frame_rows labelled) = length (frame_rows (lpa_data w)) /\
   save_predict_labels pred_labels save_path w
   = match write_file (files w) save_path (CsvFile labelled) with
     | inr f => ({| files := f; lpa_data := labelled |}, Done tt)
     | inl e => ({| files := files w; lpa_data := labelled |}, Failed (OSError e))
     end).
Proof.
  intros Hne Hkey.
  pose proof (frame_setitem_fresh (lpa_data w) "cluster" (map VInt pred_labels) Hne Hkey)
    as Hset.
  rewrite length_map in Hset. split.
  - intros Hlen. apply Nat.eqb_neq in Hlen. rewrite Hlen in Hset.
    unfold save_predict_labels. rewrite bind_get_lpa_data, Hset. reflexivity.
  - intros Hlen labelled. split.
    + unfold labelled, labelled_frame. cbn [frame_rows].
      rewrite length_zip_with. lia.
    + rewrite Hlen, Nat.eqb_refl in Hset.
      unfold save_predict_labels. rewrite bind_get_lpa_data, Hset, bind_lift_Ok.
      replace (zip_with (fun row v => row ++ [v]) (frame_rows (lpa_data w))
                        (map VInt pred_labels))
        with (frame_rows labelled)
        by (unfold labelled, labelled_frame; cbn [frame_rows];
            rewrite zip_with_fmap_r; reflexivity).
      change {| frame_columns := frame_columns (lpa_data w) ++ ["cluster"%string];
                frame_rows := frame_rows labelled |} with labelled.
      unfold mbind, io_bind, set_lpa_data, write. cbn [files lpa_data].
      destruct (write_file (files w) save_path (CsvFile labelled)); reflexivity.
Qed.

(** X17. Labelling the frame held in the store.  With as many labels as rows
    the frame gains the column [cluster], each row keeping its values
    and receiving its own label, and that frame is what is written; if
    the write fails the frame has been changed all the same.  With
    another number of labels the call raises [ValueError] and nothing
    changes. *)
Theorem save_predict_labels_store (pred_labels : list Z) (save_path : string) (w : world) :
  frame_rows (lpa_data w) <> [] ->
  index_of "cluster" (frame_columns (lpa_data w)) = None ->
  (length pred_labels <> length (frame_rows (lpa_data w)) ->
   save_predict_labels pred_labels save_path w = (w, Failed (Computation ValueError))) /\
  (length pred_labels = length (frame_rows (lpa_data w)) ->
   let labelled := labelled_frame (lpa_data w) pred_labels in
   length (frame_rows labelled) = length (frame_rows (lpa_data w)) /\
   save_predict_labels pred_labels save_path w
   = match write_file (files w) save_path (CsvFile labelled) with
     | inr f => ({| files := f; lpa_data := labelled |}, Done tt)
     | inl e => ({| files := files w; lpa_data := labelled |}, Failed (OSError e))
     end).
Proof. exact (save_predict_labels_cases pred_labels save_path w). Qed.

Lemma index_of_app_fresh (key : string) (l : list string) :
  index_of key l = None -> index_of key (l ++ [key]) = Some (length l).
Proof.
  induction l as [| k l IH]; cbn [index_of app length].
  - rewrite String.eqb_refl. reflexivity.
  - destruct (String.eqb key k); [discriminate |].
    destruct (index_of key l); [discriminate |]. intros _. rewrite IH by reflexivity.
    reflexivity.
Qed.

(** X18. Labelling again replaces the labels: the frame does not gain a
    second [cluster] column. *)
Theorem frame_setitem_overwrite (df df1 : DataFrame) (key : string) (v1 v2 : list value) :
  frame_rows df <> [] -> index_of key (frame_columns df) = None ->
  Forall (fun row => length row = length (frame_columns df)) (frame_rows df) ->
  frame_setitem df key v1 = Ok df1 ->
  frame_setitem df1 key v2 = frame_setitem df key v2.
Proof.
  intros Hne Hkey Hrect H1.
  rewrite (frame_setitem_fresh df key v1 Hne Hkey) in H1.
  destruct (Nat.eqb (length v1) (length (frame_rows df))) eqn:Hlen1; [| discriminate].
  apply Nat.eqb_eq in Hlen1. injection H1 as <-.
  rewrite (frame_setitem_fresh df key v2 Hne Hkey).
  unfold frame_setitem. cbn [frame_columns frame_rows].
  rewrite (index_of_app_fresh key _ Hkey).
  assert (Hrows1 : zip_with (fun row v => row ++ [v]) (frame_rows df) v1 <> []).
  { destruct (frame_rows df), v1; cbn in *; congruence. }
  destruct (zip_with (fun row v => row ++ [v]) (frame_rows df) v1) as [| r1 rows1] eqn:Hz;
    [congruence |].
  rewrite <- Hz. rewrite length_zip_with, Hlen1, Nat.min_id.
  destruct (Nat.eqb (length v2) (length (frame_rows df))) eqn:Hlen2; [| reflexivity].
  apply Nat.eqb_eq in Hlen2. do 2 f_equal.
  clear Hz Hrows1 Hne. revert v1 v2 Hlen1 Hlen2.
  induction Hrect as [| row rows Hrow _ IH]; intros v1 v2 Hlen1 Hlen2.
  - reflexivity.
  - destruct v1 as [| a v1], v2 as [| b v2]; try discriminate.
    cbn [zip_with]. f_equal.
    + rewrite insert_app_r_alt by lia. rewrite Hrow, Nat.sub_diag. reflexivity.
    + apply IH; cbn in *; lia.
Qed.

(** *** [save_finetune_result] after the sweep *)

Lemma forallb_lengths (results : list (string * list value)) (n : nat) :
  Forall (fun kc => length kc.2 = n) results ->
  forallb (fun kc => Nat.eqb (length kc.2) n) results = true.
Proof.
  intros H. apply forallb_forall. intros kc Hin.
  apply Nat.eqb_eq. apply (proj1 (List.Forall_forall _ _) H kc Hin).
Qed.


(** *** [main] *)

Lemma bind_Done {A C : Type} (m : io A) (k : A -> io C) (w w1 : world) (a : A) :
  m w = (w1, Done a) -> (m ≫= k) w = k a w1.
Proof. intros H. unfold mbind, io_bind. rewrite H. reflexivity. Qed.

Lemma bind_Failed {A C : Type} (m : io A) (k : A -> io C) (w w1 : world)
  (e : py_exception) :
  m w = (w1, Failed e) -> (m ≫= k) w = (w1, Failed e).
Proof. intros H. unfold mbind, io_bind. rewrite H. reflexivity. Qed.

Lemma bind_inv {A C : Type} (m : io A) (k : A -> io C) (w w' : world) (c : C) :
  (m ≫= k) w = (w', Done c) ->
  exists w1 a, m w = (w1, Done a) /\ k a w1 = (w', Done c).
Proof.
  unfold mbind, io_bind. destruct (m w) as [w1 [a | e]]; intros H.
  - exists w1, a. split; [reflexivity | assumption].
  - discriminate.
Qed.

Lemma lift_inv {A : Type} (r : result A) (w w' : world) (a : A) :
  lift r w = (w', Done a) -> w' = w /\ r = Ok a.
Proof.
  unfold lift. destruct r; intros H; [| discriminate].
  injection H as <- <-. split; reflexivity.
Qed.

Lemma save_finetune_result_frame (results : list (string * list value)) (path : string)
  (w w1 : world) (o : outcome unit) :
  save_finetune_result results path w = (w1, o) -> lpa_data w1 = lpa_data w.
Proof.
  unfold save_finetune_result, mbind, io_bind, lift, write.
  destruct (DataFrame_of_dict results); [| intros H; injection H as <- _; reflexivity].
  destruct (write_file _ _ _); intros H; injection H as <- _; reflexivity.
Qed.

Lemma name_saved_files_frame (sp : string) (cfg : ModelConfig) (w w1 : world)
  (o : outcome (list (string * string))) :
  _name_saved_files sp cfg w = (w1, o) -> lpa_data w1 = lpa_data w.
Proof.
  destruct (path_exists (files w) (model_folder sp cfg)) eqn:Hex.
  - rewrite (name_saved_files_present sp cfg w Hex). intros H.
    injection H as <- _. reflexivity.
  - rewrite (name_saved_files_absent sp cfg w Hex).
    destruct (mkdir _ _); intros H; injection H as <- _; reflexivity.
Qed.

Lemma frame_values_labelled (rows : list (list value)) (data : matrix) (labels : list Z) :
  mapM (mapM cell_value) rows = Ok data ->
  mapM (mapM cell_value) (zip_with (fun row l => row ++ [VInt l]) rows labels)
  = Ok (zip_with (fun row l => row ++ [IZR l]) data labels).
Proof.
  intros H. apply mapM_Ok_inv in H. revert labels.
  induction H as [| row x rows data Hrow _ IH]; intros labels; [reflexivity |].
  destruct labels as [| l labels]; [reflexivity |]. cbn [zip_with].
  change (mapM ?f (?a :: ?t)) with (b ← f a; bs ← mapM f t; mret (b :: bs)).
  assert (Hr : mapM cell_value (row ++ [VInt l]) = Ok (x ++ [IZR l])).
  { clear -Hrow. apply mapM_Ok_inv in Hrow.
    induction Hrow as [| v y vs ys Hv _ IHr]; [reflexivity |].
    cbn [app].
    change (mapM ?f (?a :: ?t)) with (b ← f a; bs ← mapM f t; mret (b :: bs)).
    rewrite Hv. cbn [mbind result_bind]. rewrite IHr. reflexivity. }
  rewrite Hr. cbn [mbind result_bind]. rewrite IH. reflexivity.
Qed.


(** X21. When [main] completes, the frame [lpa_data] of the store has been
    labelled with the hard assignments of the model fitted for K = 5,
    whatever the comparison table says: the module-level frame now has
    the column [cluster], and the array a later fit would receive from
    it has the labels as one more feature. *)
Theorem main_labels_module_frame (w w' : world) (data : matrix) :
  frame_values (lpa_data w) = Ok data ->
  frame_rows (lpa_data w) <> [] ->
  index_of "cluster" (frame_columns (lpa_data w)) = None ->
  main w = (w', Done tt) ->
  exists results pred_labels model,
    finetune_model data default_ModelConfig = Ok results /\
    build_model_and_fit data 5 default_ModelConfig = Ok (pred_labels, model) /\
    lpa_data w' = labelled_frame (lpa_data w) pred_labels /\
    frame_values (lpa_data w')
    = Ok (zip_with (fun row l => row ++ [IZR l]) data pred_labels).
Proof.
  intros Hvals Hne Hkey Hmain. unfold main in Hmain.
  rewrite bind_get_lpa_data, Hvals, bind_lift_Ok in Hmain.
  apply bind_inv in Hmain. destruct Hmain as (w0 & results & Hsweep & Hmain).
  apply lift_inv in Hsweep. destruct Hsweep as [-> Hsweep].
  apply bind_inv in Hmain. destruct Hmain as (w1 & [] & Hsave & Hmain).
  pose proof (save_finetune_result_frame _ _ _ _ _ Hsave) as Hframe1.
  rewrite bind_get_lpa_data, Hframe1, Hvals, bind_lift_Ok in Hmain.
  apply bind_inv in Hmain. destruct Hmain as (w1' & [pred_labels model] & Hfit & Hmain).
  apply lift_inv in Hfit. destruct Hfit as [-> Hfit].
  apply bind_inv in Hmain. destruct Hmain as (w2 & save_path & Hnames & Hmain).
  pose proof (name_saved_files_frame _ _ _ _ _ Hnames) as Hframe2.
  apply bind_inv in Hmain. destruct Hmain as (w2' & model_path & Hget & Hmain).
  assert (w2' = w2) as ->.
  { unfold dict_getitem in Hget. injection Hget as <- _. reflexivity. }
  apply bind_inv in Hmain. destruct Hmain as (w3 & [] & Hdump & Hmain).
  assert (Hframe3 : lpa_data w3 = lpa_data w2).
  { unfold write in Hdump. destruct (write_file _ _ _); [discriminate |].
    injection Hdump as <-. reflexivity. }
  assert (Hframe : lpa_data w3 = lpa_data w) by congruence.
  destruct (save_predict_labels_cases pred_labels (saved_path ++ "/lpa_k5.csv") w3)
    as [Hbad Hgood]; [rewrite Hframe; assumption | rewrite Hframe; assumption |].
  destruct (Nat.eq_dec (length pred_labels) (length (frame_rows (lpa_data w3))))
    as [Hlen | Hlen].
  - destruct (Hgood Hlen) as [_ Hrun]. rewrite Hrun in Hmain.
    destruct (write_file _ _ _); [discriminate |]. injection Hmain as <-.
    exists results, pred_labels, model. cbn [lpa_data].
    split; [assumption |]. split; [assumption |]. rewrite Hframe.
    split; [reflexivity |].
    unfold frame_values, labelled_frame. cbn [frame_rows].
    apply frame_values_labelled. exact Hvals.
  - rewrite (Hbad Hlen) in Hmain. discriminate.
Qed.

End PipelineProperties.

(** ** The pipeline on the in-memory file system *)

Example path_join_examples :
  path_join "./results" "infoCriterion.csv" = "./results/infoCriterion.csv"%string /\
  path_join "./results/" "model_cov_full" = "./results/model_cov_full"%string /\
  path_join "" "lpa.csv" = "lpa.csv"%string /\
  path_join "./results" "/tmp/x" = "/tmp/x"%string.
Proof. repeat split. Qed.

Lemma module_lpa_data_frame_witness :
  module_lpa_data [[1; 2]; [3; 4]] = Raise IndexError.
Proof.
  apply (proj1 (module_lpa_data_frame [[1; 2]; [3; 4]] 2 ltac:(discriminate)
                  ltac:(repeat constructor))).
  lia.
Defined.

Lemma memory_fs_mkdir_exists (f : @fs memory_fs) (p : string) (f' : @fs memory_fs) :
  @mkdir memory_fs f p = inr f' -> @path_exists memory_fs f' p = true.
Proof.
  cbn. destruct (existsb _ f); [discriminate |]. intros H. injection H as <-.
  cbn. rewrite String.eqb_refl. reflexivity.
Qed.

Lemma name_saved_files_idempotent_witness :
  exists w' d,
    @_name_saved_files memory_fs saved_path default_ModelConfig small_session = (w', Done d) /\
    @_name_saved_files memory_fs saved_path default_ModelConfig w' = (w', Done d).
Proof.
  pose proof (@name_saved_files_absent memory_fs saved_path default_ModelConfig
                small_session eq_refl) as Hrun.
  change (@mkdir memory_fs (files small_session) (model_folder saved_path default_ModelConfig))
    with (@inr os_error (@fs memory_fs)
            [(model_folder saved_path default_ModelConfig, @None artefact)]) in Hrun.
  cbv iota in Hrun.
  eexists _, _. split; [exact Hrun |].
  apply (@name_saved_files_idempotent memory_fs saved_path default_ModelConfig
           small_session _ _ memory_fs_mkdir_exists Hrun).
Defined.

Lemma save_predict_labels_store_witness :
  @save_predict_labels memory_fs [0%Z] "./results/lpa_k5.csv" small_session
  = (small_session, Failed (Computation ValueError)).
Proof.
  apply (proj1 (@save_predict_labels_store memory_fs [0%Z] "./results/lpa_k5.csv"
                  small_session ltac:(discriminate) eq_refl)).
  cbn. lia.
Defined.

Lemma frame_setitem_overwrite_witness :
  exists df1,
    frame_setitem four_by_four "cluster" (map VInt [0; 1; 0; 1]%Z) = Ok df1 /\
    frame_setitem df1 "cluster" (map VInt [1; 1; 0; 0]%Z)
    = frame_setitem four_by_four "cluster" (map VInt [1; 1; 0; 0]%Z).
Proof.
  eexists. split; [reflexivity |].
  apply (frame_setitem_overwrite four_by_four _ "cluster" (map VInt [0; 1; 0; 1]%Z)).
  - discriminate.
  - reflexivity.
  - repeat constructor.
  - reflexivity.
Defined.

Lemma nine_points_sweep :
  exists results,
    @finetune_model univariate_backend nine_points default_ModelConfig = Ok results.
Proof.
  unfold finetune_model.
  rewrite (@sweep_loop_Ok univariate_backend nine_points default_ModelConfig grid_model).
  - eexists. reflexivity.
  - apply Forall_forall. intros n Hn. apply list_elem_of_In, in_seq in Hn. split.
    + apply grid_fit_Ok. cbn. lia.
    + apply grid_model_fitted. lia.
Qed.





Lemma nine_by_one_values : frame_values nine_by_one = Ok nine_points.
Proof. apply (frame_values_of_matrix nine_points). Qed.

Lemma memory_name_saved_files (sp : string) (cfg : ModelConfig) (w : @world memory_fs) :
  exists w2,
    @_name_saved_files memory_fs sp cfg w
    = (w2, Done [ ("result"%string,
                   path_join (model_folder sp cfg) (model_prefix cfg ++ ".npy"));
                  ("model"%string,
                   path_join (model_folder sp cfg) (model_prefix cfg ++ ".joblib")) ]) /\
    lpa_data w2 = lpa_data w.
Proof.
  destruct (@path_exists memory_fs (files w) (model_folder sp cfg)) eqn:Hex.
  - exists w. split; [apply name_saved_files_present; assumption | reflexivity].
  - rewrite (@name_saved_files_absent memory_fs sp cfg w Hex).
    cbn [mkdir memory_fs]. cbn [path_exists memory_fs] in Hex. rewrite Hex.
    eexists. split; reflexivity.
Qed.

Lemma memory_write (path : string) (a : artefact) (w : @world memory_fs) :
  exists w3, @write memory_fs path a w = (w3, Done tt) /\ lpa_data w3 = lpa_data w.
Proof. unfold write. cbn [write_file memory_fs]. eexists. split; reflexivity. Qed.

Lemma nine_session_main :
  exists w', @main univariate_backend memory_fs nine_session = (w', Done tt).
Proof.
  destruct nine_points_sweep as [results Hres].
  destruct (@sweep_columns univariate_backend _ _ _ Hres) as (Hkeys & Hlen & _).
  assert (Hn : length (hd [] (map snd results)) = 9%nat).
  { destruct results as [| kc rs]; [discriminate |]. inversion Hlen; subst. assumption. }
  assert (Hfit : exists labels,
             @build_model_and_fit univariate_backend nine_points 5 default_ModelConfig
             = Ok (labels, grid_model 5) /\ length labels = 9%nat).
  { unfold build_model_and_fit. cbn [gm_fit univariate_backend].
    rewrite (grid_fit_Ok default_ModelConfig 5 nine_points) by (cbn; lia).
    cbn [mbind result_bind].
    rewrite (@predict_Ok univariate_backend (grid_model 5) nine_points)
      by (apply grid_model_nonempty; lia).
    eexists. split; [reflexivity |]. rewrite !length_map. reflexivity. }
  destruct Hfit as (labels & Hfit & Hlabels).
  assert (Hsave : exists w1,
             @save_finetune_result memory_fs results saved_path nine_session
             = (w1, Done tt) /\ lpa_data w1 = nine_by_one).
  { unfold save_finetune_result, DataFrame_of_dict.
    rewrite Hn, (forallb_lengths results 9 Hlen), bind_lift_Ok.
    unfold write. cbn [write_file memory_fs]. eexists. split; reflexivity. }
  destruct Hsave as (w1 & Hsave & Hframe1).
  destruct (memory_name_saved_files saved_path default_ModelConfig w1)
    as (w2 & Hnames & Hframe2).
  unfold main.
  rewrite bind_get_lpa_data.
  change (lpa_data nine_session) with nine_by_one.
  rewrite nine_by_one_values, bind_lift_Ok, Hres, bind_lift_Ok.
  rewrite (bind_Done _ _ _ _ _ Hsave).
  rewrite bind_get_lpa_data, Hframe1, nine_by_one_values, bind_lift_Ok, Hfit, bind_lift_Ok.
  cbv beta iota.
  rewrite (bind_Done _ _ _ _ _ Hnames).
  rewrite (bind_Done _ _ w2 w2 _ eq_refl).
  destruct (memory_write
              (path_join (model_folder saved_path default_ModelConfig)
                         (model_prefix default_ModelConfig ++ ".joblib"))
              (JoblibFile (grid_model 5)) w2) as (w3 & Hdump & Hframe3).
  rewrite (bind_Done _ _ _ _ _ Hdump).
  assert (Hframe : lpa_data w3 = nine_by_one) by congruence.
  destruct (@save_predict_labels_cases memory_fs labels (saved_path ++ "/lpa_k5.csv") w3)
    as [_ Hgood].
  - rewrite Hframe. discriminate.
  - rewrite Hframe. reflexivity.
  - destruct Hgood as [_ Hrun].
    + rewrite Hframe, Hlabels. reflexivity.
    + rewrite Hrun. cbn [write_file memory_fs]. eexists. reflexivity.
Qed.

Lemma main_labels_module_frame_witness :
  exists w' pred_labels,
    @main univariate_backend memory_fs nine_session = (w', Done tt) /\
    frame_columns (@lpa_data memory_fs w') = ["ns"; "cluster"]%string /\
    frame_values (@lpa_data memory_fs w')
    = Ok (zip_with (fun row l => row ++ [IZR l]) nine_points pred_labels).
Proof.
  destruct nine_session_main as [w' Hmain].
  destruct (@main_labels_module_frame univariate_backend memory_fs nine_session w'
              nine_points nine_by_one_values ltac:(discriminate) eq_refl Hmain)
    as (results & pred_labels & model & _ & _ & Hframe & Hvals).
  exists w', pred_labels. split; [exact Hmain |]. split; [| exact Hvals].
  rewrite Hframe. reflexivity.
Defined.
